(** * CodeGenFunction: per-function code generation state (CodeGenFunction.cpp)

    A shallow embedding of the per-function driver of the code generator:
    label resolution, dummy-block reuse, the fallthrough step, the derivation
    of linkage and parameter attributes from the declaration, and the
    sequence of steps of [GenerateCode].

    Blocks live in an arena (the heap of [llvm::BasicBlock] objects) and are
    named by their index; the function's block list holds the indices of the
    attached blocks.  Assertions are modelled as they behave in a build that
    checks them: a failed [assert] aborts the run ([Fatal]). *)

From Stdlib Require Import String List Bool Arith Lia Permutation.
Import ListNotations.

(** ** Types and values of the target IR *)

Inductive lty : Type :=
| VoidTy
| IntegerTy (width : nat)
| FloatTy
| DoubleTy
| PointerTy (pointee : lty)
| NamedTy (id : nat).            (* struct and other derived types *)

Fixpoint lty_eqb (a b : lty) : bool :=
  match a, b with
  | VoidTy, VoidTy => true
  | IntegerTy w, IntegerTy w' => Nat.eqb w w'
  | FloatTy, FloatTy => true
  | DoubleTy, DoubleTy => true
  | PointerTy p, PointerTy q => lty_eqb p q
  | NamedTy i, NamedTy j => Nat.eqb i j
  | _, _ => false
  end.

Inductive value : Type :=
| UndefValue (t : lty)
| ConstantInt (t : lty) (v : nat)
| InstValue (id : nat)
| ArgValue (idx : nat).

(** Instructions.  [AllocaInsertPtInst] is the marker of line 104: the
    bitcast of [undef] to i32 named "allocapt". *)
Inductive instr : Type :=
| AllocaInsertPtInst
| OtherInst (name : string)
| BranchInst (dest : nat)
| CondBranchInst (c : value) (iftrue iffalse : nat)
| SwitchInst (c : value) (dflt : nat) (cases : list (value * nat))
| ReturnInst (v : option value)
| UnreachableInst.

Definition isTerminator (i : instr) : bool :=
  match i with
  | BranchInst _ | CondBranchInst _ _ _ | SwitchInst _ _ _
  | ReturnInst _ | UnreachableInst => true
  | AllocaInsertPtInst | OtherInst _ => false
  end.

Definition successors (i : instr) : list nat :=
  match i with
  | BranchInst d => [d]
  | CondBranchInst _ t f => [t; f]
  | SwitchInst _ d cs => d :: map snd cs
  | _ => []
  end.

Definition isAllocaInsertPt (i : instr) : bool :=
  match i with AllocaInsertPtInst => true | _ => false end.

Record BasicBlock : Type := mkBB {
  bb_name : string;
  bb_insts : list instr
}.

Definition empty_block : BasicBlock := mkBB "" [].

(** ** IR functions *)

Inductive Linkage : Type :=
| ExternalLinkage | LinkOnceLinkage | WeakLinkage | AppendingLinkage
| InternalLinkage | DLLImportLinkage | DLLExportLinkage
| ExternalWeakLinkage | GhostLinkage.

Inductive Visibility : Type :=
| DefaultVisibility | HiddenVisibility | ProtectedVisibility.

Inductive ParamAttr : Type :=
| NoUnwind | NoReturn | ZExt | SExt | InReg | StructRet | NoAlias | ByVal.

Record Function : Type := mkFn {
  fn_name : string;
  fn_retty : lty;
  fn_nargs : nat;
  fn_argnames : list (nat * string);
  fn_linkage : Linkage;
  fn_visibility : Visibility;
  fn_paramattrs : list (nat * ParamAttr);
  fn_blocks : list nat                       (* attached blocks, in order *)
}.

(** [Function::isDeclaration]: no basic blocks. *)
Definition isNil {A} (l : list A) : bool :=
  match l with [] => true | _ => false end.

Definition isDeclaration (f : Function) : bool := isNil (fn_blocks f).

Definition setLinkage (f : Function) (l : Linkage) : Function :=
  mkFn (fn_name f) (fn_retty f) (fn_nargs f) (fn_argnames f) l
       (fn_visibility f) (fn_paramattrs f) (fn_blocks f).

Definition setVisibility (f : Function) (v : Visibility) : Function :=
  mkFn (fn_name f) (fn_retty f) (fn_nargs f) (fn_argnames f) (fn_linkage f)
       v (fn_paramattrs f) (fn_blocks f).

Definition setParamAttrs (f : Function) (pa : list (nat * ParamAttr)) : Function :=
  mkFn (fn_name f) (fn_retty f) (fn_nargs f) (fn_argnames f) (fn_linkage f)
       (fn_visibility f) pa (fn_blocks f).

Definition setArgName (idx : nat) (n : string) (f : Function) : Function :=
  mkFn (fn_name f) (fn_retty f) (fn_nargs f) ((idx, n) :: fn_argnames f)
       (fn_linkage f) (fn_visibility f) (fn_paramattrs f) (fn_blocks f).

Definition setBlocks (f : Function) (bs : list nat) : Function :=
  mkFn (fn_name f) (fn_retty f) (fn_nargs f) (fn_argnames f) (fn_linkage f)
       (fn_visibility f) (fn_paramattrs f) bs.

(** ** The AST side: types, declarations, statements *)

Inductive QualType : Type :=
| TVoid | TBool | TInteger | TFloating
| TEnum (complete : bool)
| TPointer | TReference | TVector | TFunctionType
| TRecord | TArray | TComplex.

(** [Type::isRealType]: builtin Bool .. LongDouble, or a complete enum. *)
Definition isRealType (t : QualType) : bool :=
  match t with
  | TBool | TInteger | TFloating => true
  | TEnum complete => complete
  | _ => false
  end.

Definition isPointerType (t : QualType) : bool :=
  match t with TPointer => true | _ => false end.
Definition isReferenceType (t : QualType) : bool :=
  match t with TReference => true | _ => false end.
Definition isVoidType (t : QualType) : bool :=
  match t with TVoid => true | _ => false end.
Definition isVectorType (t : QualType) : bool :=
  match t with TVector => true | _ => false end.
Definition isFunctionType (t : QualType) : bool :=
  match t with TFunctionType => true | _ => false end.

(** [CodeGenFunction::hasAggregateLLVMType], lines 53-56. *)
Definition hasAggregateLLVMType (T : QualType) : bool :=
  negb (isRealType T) && negb (isPointerType T) && negb (isReferenceType T) &&
  negb (isVoidType T) && negb (isVectorType T) && negb (isFunctionType T).

Record LabelStmt : Type := mkLabel {
  ls_id : nat;                 (* the statement's identity (its address) *)
  ls_name : string
}.

Inductive Stmt : Type :=
| NullStmt
| CompoundStmt (a b : Stmt)
| WhileStmt (body : Stmt)
| LabelStmtS (L : LabelStmt) (sub : Stmt)
| OtherStmt (name : string).

Definition ParmVarDecl := string.

Inductive StorageClass : Type := SCNone | SCExtern | SCStatic | SCPrivateExtern.

Definition isStatic (sc : StorageClass) : bool :=
  match sc with SCStatic => true | _ => false end.

Record FunctionDecl : Type := mkFD {
  fd_name : string;
  fd_result : QualType;
  fd_params : list ParmVarDecl;
  fd_body : Stmt;
  fd_storage : StorageClass;
  fd_inline : bool;
  fd_dllimport : bool;                (* DLLImportAttr *)
  fd_dllexport : bool;                (* DLLExportAttr *)
  fd_weak : bool;                     (* WeakAttr *)
  fd_visibility : option Visibility;  (* VisibilityAttr *)
  fd_nothrow : bool;                  (* NoThrowAttr *)
  fd_noreturn : bool                  (* NoReturnAttr *)
}.

(** ** Per-function state (the members of CodeGenFunction) *)

Record CodeGenFunction : Type := mkCGF {
  Arena : list BasicBlock;               (* every BasicBlock object, by index *)
  CurFn : Function;
  InsertBlock : nat;                     (* Builder.GetInsertBlock() *)
  LabelMap : list (nat * nat);           (* LabelStmt identity -> block *)
  BreakContinueStack : list (nat * nat); (* (break target, continue target) *)
  AllocaInsertPt : option nat;           (* block holding the marker, if any *)
  LLVMIntTy : lty;
  LLVMPointerWidth : nat
}.

Definition set_arena (s : CodeGenFunction) (a : list BasicBlock) : CodeGenFunction :=
  mkCGF a (CurFn s) (InsertBlock s) (LabelMap s) (BreakContinueStack s)
        (AllocaInsertPt s) (LLVMIntTy s) (LLVMPointerWidth s).
Definition set_curfn (s : CodeGenFunction) (f : Function) : CodeGenFunction :=
  mkCGF (Arena s) f (InsertBlock s) (LabelMap s) (BreakContinueStack s)
        (AllocaInsertPt s) (LLVMIntTy s) (LLVMPointerWidth s).
Definition set_insert (s : CodeGenFunction) (b : nat) : CodeGenFunction :=
  mkCGF (Arena s) (CurFn s) b (LabelMap s) (BreakContinueStack s)
        (AllocaInsertPt s) (LLVMIntTy s) (LLVMPointerWidth s).
Definition set_labelmap (s : CodeGenFunction) (m : list (nat * nat)) : CodeGenFunction :=
  mkCGF (Arena s) (CurFn s) (InsertBlock s) m (BreakContinueStack s)
        (AllocaInsertPt s) (LLVMIntTy s) (LLVMPointerWidth s).
Definition set_bcstack (s : CodeGenFunction) (st : list (nat * nat)) : CodeGenFunction :=
  mkCGF (Arena s) (CurFn s) (InsertBlock s) (LabelMap s) st
        (AllocaInsertPt s) (LLVMIntTy s) (LLVMPointerWidth s).
Definition set_allocapt (s : CodeGenFunction) (p : option nat) : CodeGenFunction :=
  mkCGF (Arena s) (CurFn s) (InsertBlock s) (LabelMap s) (BreakContinueStack s)
        p (LLVMIntTy s) (LLVMPointerWidth s).
Definition set_target (s : CodeGenFunction) (t : lty) (w : nat) : CodeGenFunction :=
  mkCGF (Arena s) (CurFn s) (InsertBlock s) (LabelMap s) (BreakContinueStack s)
        (AllocaInsertPt s) t w.

(** A function object before [GenerateCode] assigns [CurFn]. *)
Definition null_function : Function :=
  mkFn "" VoidTy 0 [] ExternalLinkage DefaultVisibility [] [].

(** The constructor [CodeGenFunction(cgm)]: empty label map and
    break/continue stack; [heap] is the set of blocks already allocated. *)
Definition NewCodeGenFunction (heap : list BasicBlock) : CodeGenFunction :=
  mkCGF heap null_function 0 [] [] None VoidTy 0.

(** ** A state and error monad *)

Inductive Result (A : Type) : Type :=
| Ok (a : A)
| Fatal (msg : string).
Arguments Ok {A} a.
Arguments Fatal {A} msg.

Definition CG (A : Type) : Type := CodeGenFunction -> Result (A * CodeGenFunction).

Definition ret {A} (a : A) : CG A := fun s => Ok (a, s).
Definition bind {A B} (m : CG A) (k : A -> CG B) : CG B :=
  fun s => match m s with
           | Ok (a, s') => k a s'
           | Fatal e => Fatal e
           end.

Notation "x <- m ;; k" := (bind m (fun x => k))
  (at level 61, m at next level, right associativity).
Notation "m ;; k" := (bind m (fun _ : unit => k))
  (at level 61, right associativity).

Definition get : CG CodeGenFunction := fun s => Ok (s, s).
Definition modify (f : CodeGenFunction -> CodeGenFunction) : CG unit :=
  fun s => Ok (tt, f s).
Definition modify_fn (f : Function -> Function) : CG unit :=
  modify (fun s => set_curfn s (f (CurFn s))).

(** [assert(b && msg)]: a failed assertion aborts. *)
Definition assert (b : bool) (msg : string) : CG unit :=
  fun s => if b then Ok (tt, s) else Fatal msg.

(** ** Blocks *)

Definition block_at (s : CodeGenFunction) (b : nat) : BasicBlock :=
  nth b (Arena s) empty_block.

Fixpoint update_nth (l : list BasicBlock) (n : nat) (f : BasicBlock -> BasicBlock)
  : list BasicBlock :=
  match l, n with
  | [], _ => []
  | x :: l', 0 => f x :: l'
  | x :: l', S n' => x :: update_nth l' n' f
  end.

Definition update_block (b : nat) (f : BasicBlock -> BasicBlock) : CG unit :=
  modify (fun s => set_arena s (update_nth (Arena s) b f)).

(** [new llvm::BasicBlock(N)]: a fresh block, attached to no function. *)
Definition NewBasicBlock (N : string) : CG nat :=
  s <- get ;;
  let id := length (Arena s) in
  modify (fun s => set_arena s (Arena s ++ [mkBB N []])) ;;
  ret id.

(** [new llvm::BasicBlock(N, CurFn)]: a fresh block appended to [CurFn]. *)
Definition NewBasicBlockInFn (N : string) : CG nat :=
  id <- NewBasicBlock N ;;
  modify_fn (fun f => setBlocks f (fn_blocks f ++ [id])) ;;
  ret id.

Definition SetInsertPoint (b : nat) : CG unit :=
  modify (fun s => set_insert s b).

(** Inserting at the end of block [b] / at the builder's insertion point. *)
Definition InsertInstAt (b : nat) (i : instr) : CG unit :=
  update_block b (fun B => mkBB (bb_name B) (bb_insts B ++ [i])).

Definition InsertInst (i : instr) : CG unit :=
  s <- get ;; InsertInstAt (InsertBlock s) i.

Definition CreateRetVoid : CG unit := InsertInst (ReturnInst None).
Definition CreateRet (v : value) : CG unit := InsertInst (ReturnInst (Some v)).

Definition SetBlockName (b : nat) (N : string) : CG unit :=
  update_block b (fun B => mkBB N (bb_insts B)).

(** [BB->eraseFromParent()]: the block leaves the function's block list. *)
Definition EraseBlockFromParent (b : nat) : CG unit :=
  modify_fn (fun f => setBlocks f (filter (fun x => negb (Nat.eqb x b)) (fn_blocks f))).

Fixpoint remove_first_anchor (l : list instr) : list instr :=
  match l with
  | [] => []
  | i :: l' => if isAllocaInsertPt i then l' else i :: remove_first_anchor l'
  end.

(** [AllocaInsertPt->eraseFromParent(); AllocaInsertPt = 0;] *)
Definition EraseAllocaInsertPt : CG unit :=
  s <- get ;;
  match AllocaInsertPt s with
  | Some b =>
      update_block b (fun B => mkBB (bb_name B) (remove_first_anchor (bb_insts B))) ;;
      modify (fun s => set_allocapt s None)
  | None => assert false "null AllocaInsertPt"
  end.

(** Predecessors: the blocks holding a terminator that targets [b]
    (the users of [b] visited by [pred_begin]/[pred_end]). *)
Definition uses_block (b : nat) (i : instr) : bool :=
  isTerminator i && existsb (Nat.eqb b) (successors i).

Definition pred_list (ar : list BasicBlock) (b : nat) : list nat :=
  filter (fun j => existsb (uses_block b) (bb_insts (nth j ar empty_block)))
         (seq 0 (length ar)).

(** [CodeGenFunction::isDummyBlock], lines 151-155. *)
Definition isDummyBlock (s : CodeGenFunction) (BB : nat) : bool :=
  if isNil (bb_insts (block_at s BB)) && isNil (pred_list (Arena s) BB)
  then true else false.

(** Modelled from the spec: [EmitBlock] (defined in CGStmt.cpp, not among
    the sources).  Spec 4.2: "create a new block and switch to it"; the
    block is appended to the function's block list and becomes the
    insertion block. *)
Definition EmitBlock (BB : nat) : CG unit :=
  modify_fn (fun f => setBlocks f (fn_blocks f ++ [BB])) ;;
  SetInsertPoint BB.

(** [CodeGenFunction::StartBlock], lines 159-165. *)
Definition StartBlock (N : string) : CG unit :=
  s <- get ;;
  let BB := InsertBlock s in
  if negb (isDummyBlock s BB)
  then (NB <- NewBasicBlock N ;; EmitBlock NB)
  else SetBlockName BB N.

Fixpoint lookup_label (k : nat) (m : list (nat * nat)) : option nat :=
  match m with
  | [] => None
  | (k', v) :: m' => if Nat.eqb k k' then Some v else lookup_label k m'
  end.

(** [CodeGenFunction::getBasicBlockForLabel], lines 36-42. *)
Definition getBasicBlockForLabel (S : LabelStmt) : CG nat :=
  s <- get ;;
  match lookup_label (ls_id S) (LabelMap s) with
  | Some BB => ret BB
  | None =>
      (* Create, but don't insert, the new block. *)
      BB <- NewBasicBlock (ls_name S) ;;
      modify (fun s => set_labelmap s ((ls_id S, BB) :: LabelMap s)) ;;
      ret BB
  end.

(** ** GenerateCode, lines 59-147 *)

(** The collaborators [GenerateCode] calls: the module's address table, the
    target's widths, and the parameter, statement emitters and the verifier
    (defined elsewhere in the code generator and in LLVM). *)
Record CodeGenEnv : Type := mkEnv {
  GetAddrOfFunctionDecl : FunctionDecl -> Function;
  TargetIntWidth : nat;
  TargetPointerWidth : nat;
  EmitParmDecl : ParmVarDecl -> nat -> CG unit;
  EmitStmt : Stmt -> CG unit;
  verifyFunction : CodeGenFunction -> bool     (* true when broken *)
}.

(** The linkage chosen at lines 71-78; [None] leaves the function's linkage
    as it is. *)
Definition LinkageFor (FD : FunctionDecl) : option Linkage :=
  if fd_dllimport FD then Some DLLImportLinkage
  else if fd_dllexport FD then Some DLLExportLinkage
  else if fd_weak FD || fd_inline FD then Some WeakLinkage
  else if isStatic (fd_storage FD) then Some InternalLinkage
  else None.

Definition ApplyLinkage (FD : FunctionDecl) (f : Function) : Function :=
  match LinkageFor FD with
  | Some l => setLinkage f l
  | None => f
  end.

(** [ParamAttrsVec], lines 85-92: each attribute is pushed with index
    [ParamAttrsVec.size()]. *)
Definition push_attr (v : list (nat * ParamAttr)) (a : ParamAttr) : list (nat * ParamAttr) :=
  v ++ [(length v, a)].

Definition ParamAttrsVecFor (FD : FunctionDecl) : list (nat * ParamAttr) :=
  let v0 := [] in
  let v1 := if fd_nothrow FD then push_attr v0 NoUnwind else v0 in
  if fd_noreturn FD then push_attr v1 NoReturn else v1.

Section Generate.
Variable C : CodeGenEnv.

(** Lines 60-67. *)
Definition GC_setup (FD : FunctionDecl) : CG unit :=
  modify (fun s => set_target s (IntegerTy (TargetIntWidth C)) (TargetPointerWidth C)) ;;
  modify (fun s => set_curfn s (GetAddrOfFunctionDecl C FD)) ;;
  s <- get ;;
  assert (isDeclaration (CurFn s)) "Function already has body?".

(** Lines 69-95. *)
Definition GC_attributes (FD : FunctionDecl) : CG unit :=
  modify_fn (ApplyLinkage FD) ;;
  modify_fn (fun f => match fd_visibility FD with
                      | Some v => setVisibility f v
                      | None => f
                      end) ;;
  let PAV := ParamAttrsVecFor FD in
  if isNil PAV then ret tt else modify_fn (fun f => setParamAttrs f PAV).

(** Lines 98-107. *)
Definition GC_entry : CG unit :=
  EntryBB <- NewBasicBlockInFn "entry" ;;
  InsertInstAt EntryBB AllocaInsertPtInst ;;
  modify (fun s => set_allocapt s (Some EntryBB)) ;;
  SetInsertPoint EntryBB.

(** The loop of lines 118-121; [AI] is the argument iterator. *)
Fixpoint EmitParams (ps : list ParmVarDecl) (AI : nat) : CG unit :=
  match ps with
  | [] => ret tt
  | P :: ps' =>
      s <- get ;;
      assert (AI <? fn_nargs (CurFn s)) "Argument mismatch!" ;;
      EmitParmDecl C P AI ;;
      EmitParams ps' (S AI)
  end.

(** Lines 110-121. *)
Definition GC_params (FD : FunctionDecl) : CG unit :=
  AI <- (if hasAggregateLLVMType (fd_result FD)
         then modify_fn (setArgName 0 "agg.result") ;; ret 1
         else ret 0) ;;
  EmitParams (fd_params FD) AI.

Definition GC_prologue (FD : FunctionDecl) : CG unit :=
  GC_setup FD ;; GC_attributes FD ;; GC_entry ;; GC_params FD.

(** Lines 126-137: the fallthrough step. *)
Definition GC_fallthrough : CG unit :=
  s <- get ;;
  let BB := InsertBlock s in
  if isDummyBlock s BB then EraseBlockFromParent BB
  else if lty_eqb (fn_retty (CurFn s)) VoidTy then CreateRetVoid
  else CreateRet (UndefValue (fn_retty (CurFn s))).

(** Lines 141-146. *)
Definition GC_teardown : CG unit :=
  EraseAllocaInsertPt ;;
  s <- get ;;
  assert (negb (verifyFunction C s)) "!verifyFunction(*CurFn)".

(** Lines 138-146. *)
Definition GC_finish : CG unit :=
  s <- get ;;
  assert (isNil (BreakContinueStack s)) "mismatched push/pop in break/continue stack!" ;;
  GC_teardown.

(** Everything up to the assertion on the break/continue stack. *)
Definition GC_body (FD : FunctionDecl) : CG unit :=
  GC_prologue FD ;; EmitStmt C (fd_body FD) ;; GC_fallthrough.

(** [CodeGenFunction::GenerateCode]. *)
Definition GenerateCode (FD : FunctionDecl) : CG unit :=
  GC_body FD ;; GC_finish.

End Generate.

(** ** The spec's wording, for comparison *)

(** Linkage precedence as spec 4.5 words it: import > export >
    (weak or inline) > static > default external. *)
Definition SpecLinkage (FD : FunctionDecl) : Linkage :=
  if fd_dllimport FD then DLLImportLinkage
  else if fd_dllexport FD then DLLExportLinkage
  else if fd_weak FD || fd_inline FD then WeakLinkage
  else if isStatic (fd_storage FD) then InternalLinkage
  else ExternalLinkage.

(** The attribute derivation of lines 85-92 with the two markers
    considered in the other order. *)
Definition ParamAttrsVecSwapped (FD : FunctionDecl) : list (nat * ParamAttr) :=
  let v0 := [] in
  let v1 := if fd_noreturn FD then push_attr v0 NoReturn else v0 in
  if fd_nothrow FD then push_attr v1 NoUnwind else v1.

(** ** A statement emitter for loops and labels *)

Definition PushBreakContinue (Break Continue : nat) : CG unit :=
  modify (fun s => set_bcstack s ((Break, Continue) :: BreakContinueStack s)).

Definition PopBreakContinue : CG unit :=
  modify (fun s => set_bcstack s (tl (BreakContinueStack s))).

(** Modelled from the spec: the statement emitter of CGStmt.cpp (not among
    the sources) for loops, labels and sequences.  Spec 4.4: a loop pushes
    its (break, continue) targets on entry and pops them on its normal
    exit; spec 4.3: a labeled statement attaches its label's block when
    it is emitted. *)
Fixpoint EmitStmtModel (S : Stmt) : CG unit :=
  match S with
  | NullStmt => ret tt
  | CompoundStmt a b => EmitStmtModel a ;; EmitStmtModel b
  | WhileStmt body =>
      LoopHeader <- NewBasicBlock "whilecond" ;;
      EmitBlock LoopHeader ;;
      LoopBody <- NewBasicBlock "whilebody" ;;
      ExitBlock <- NewBasicBlock "afterwhile" ;;
      InsertInst (CondBranchInst (InstValue 0) LoopBody ExitBlock) ;;
      EmitBlock LoopBody ;;
      PushBreakContinue ExitBlock LoopHeader ;;
      EmitStmtModel body ;;
      PopBreakContinue ;;
      InsertInst (BranchInst LoopHeader) ;;
      EmitBlock ExitBlock
  | LabelStmtS L sub =>
      BB <- getBasicBlockForLabel L ;;
      EmitBlock BB ;;
      EmitStmtModel sub
  | OtherStmt n => InsertInst (OtherInst n)
  end.

Fixpoint nested_loops (n : nat) : Stmt :=
  match n with
  | 0 => NullStmt
  | S n' => WhileStmt (nested_loops n')
  end.

(** ** Concrete inputs *)

Definition sample_fn (rt : lty) (nargs : nat) : Function :=
  mkFn "f" rt nargs [] ExternalLinkage DefaultVisibility [] [].

Definition SampleEnv (f : Function) (emit : Stmt -> CG unit) : CodeGenEnv :=
  mkEnv (fun _ => f) 32 64 (fun _ _ => ret tt) emit (fun _ => false).

Definition sample_decl (res : QualType) (params : list ParmVarDecl) (body : Stmt)
  : FunctionDecl :=
  mkFD "f" res params body SCNone false false false false None false false.

Definition with_markers (FD : FunctionDecl) (imp exp weak inl : bool) (sc : StorageClass)
  (nothrow noreturn : bool) : FunctionDecl :=
  mkFD (fd_name FD) (fd_result FD) (fd_params FD) (fd_body FD) sc inl imp exp weak
       (fd_visibility FD) nothrow noreturn.

(** Number of allocation anchors in an instruction list. *)
Definition anchor_count (l : list instr) : nat :=
  length (filter isAllocaInsertPt l).


(** Number of allocation anchors over all blocks of an arena. *)
Definition arena_anchors (ar : list BasicBlock) : nat :=
  fold_right (fun B n => anchor_count (bb_insts B) + n) 0 ar.

Definition anchors_are (n : nat) (s : CodeGenFunction) : Prop :=
  arena_anchors (Arena s) = n.

(** Every label entry names an allocated block. *)
Definition labels_wf (s : CodeGenFunction) : Prop :=
  forall id b, lookup_label id (LabelMap s) = Some b -> b < length (Arena s).

(** No two labels share a block. *)
Definition labels_inj (s : CodeGenFunction) : Prop :=
  forall id1 id2 b, lookup_label id1 (LabelMap s) = Some b ->
                    lookup_label id2 (LabelMap s) = Some b -> id1 = id2.

(** A function whose entry block holds only the anchor, cursor on it. *)
Definition entry_state (rt : lty) : CodeGenFunction :=
  mkCGF [mkBB "entry" [AllocaInsertPtInst]] (setBlocks (sample_fn rt 0) [0])
        0 [] [] (Some 0) (IntegerTy 32) 64.

(** The same function after a label block "L" has been attached and made the
    insertion block. *)
Definition label_state : CodeGenFunction :=
  mkCGF [mkBB "entry" [AllocaInsertPtInst]; mkBB "L" []]
        (setBlocks (sample_fn VoidTy 0) [0; 1]) 1 [(7, 1)] [] (Some 0) (IntegerTy 32) 64.

(** * Proofs *)

(** ** Monad and list facts *)

Lemma bind_Ok {A B} (m : CG A) (k : A -> CG B) s a s' :
  m s = Ok (a, s') -> bind m k s = k a s'.
Proof. intros H. unfold bind. rewrite H. reflexivity. Qed.

Lemma bind_Fatal {A B} (m : CG A) (k : A -> CG B) s e :
  m s = Fatal e -> bind m k s = Fatal e.
Proof. intros H. unfold bind. rewrite H. reflexivity. Qed.

Lemma lty_eqb_spec : forall a b, lty_eqb a b = true <-> a = b.
Proof.
  induction a; destruct b; simpl; split; intros H; try discriminate; auto;
    try (injection H as H); subst;
    try (apply Nat.eqb_eq in H; subst; reflexivity);
    try (apply Nat.eqb_eq; reflexivity).
  - apply IHa in H. subst. reflexivity.
  - apply IHa. reflexivity.
Qed.

Lemma update_nth_length : forall l n f, length (update_nth l n f) = length l.
Proof. induction l; destruct n; simpl; auto. Qed.

Lemma nth_update_nth_same : forall l n f,
  n < length l -> nth n (update_nth l n f) empty_block = f (nth n l empty_block).
Proof.
  induction l; destruct n; simpl; intros f H; try lia; auto.
  apply IHl. lia.
Qed.

Lemma nth_update_nth_other : forall l n m f,
  m <> n -> nth m (update_nth l n f) empty_block = nth m l empty_block.
Proof.
  induction l; destruct n, m; simpl; intros f H; auto; try congruence.
Qed.

Lemma filter_nil_iff {A} (f : A -> bool) : forall l,
  filter f l = [] <-> (forall x, In x l -> f x = false).
Proof.
  induction l as [|a l IH]; simpl; split; intros H; auto.
  - intros x [].
  - destruct (f a) eqn:E; try discriminate.
    intros x [<-|Hx]; auto. apply IH; auto.
  - rewrite (H a (or_introl eq_refl)). apply IH. auto.
Qed.

Lemma isNil_true {A} (l : list A) : isNil l = true <-> l = [].
Proof. destruct l; simpl; split; congruence. Qed.

(** "No incoming edge": no block holds a terminator that targets [b]. *)
Lemma pred_list_nil_iff : forall ar b,
  pred_list ar b = [] <->
  (forall j i, j < length ar -> In i (bb_insts (nth j ar empty_block)) ->
               isTerminator i = true -> ~ In b (successors i)).
Proof.
  intros ar b. unfold pred_list. rewrite filter_nil_iff. split.
  - intros H j i Hj Hi Ht Hb.
    assert (Hs : In j (seq 0 (length ar))) by (apply in_seq; lia).
    specialize (H j Hs). rewrite <- Bool.not_true_iff_false in H. apply H.
    apply existsb_exists. exists i. split; auto.
    unfold uses_block. rewrite Ht. simpl. apply existsb_exists.
    exists b. split; auto. apply Nat.eqb_refl.
  - intros H j Hs. apply in_seq in Hs.
    apply Bool.not_true_iff_false. intros He.
    apply existsb_exists in He. destruct He as [i [Hi Hu]].
    unfold uses_block in Hu. apply andb_true_iff in Hu. destruct Hu as [Ht Hb].
    apply existsb_exists in Hb. destruct Hb as [x [Hx Heq]].
    apply Nat.eqb_eq in Heq. subst x.
    apply (H j i); auto. lia.
Qed.

Lemma isDummyBlock_true : forall s b,
  isDummyBlock s b = true <->
  bb_insts (block_at s b) = [] /\ pred_list (Arena s) b = [].
Proof.
  intros s b. unfold isDummyBlock.
  destruct (isNil (bb_insts (block_at s b))) eqn:E1;
  destruct (isNil (pred_list (Arena s) b)) eqn:E2; simpl;
  rewrite ?isNil_true in *; split; intros H; try discriminate; auto;
  destruct H as [H1 H2];
  [ apply Bool.not_true_iff_false in E2; rewrite isNil_true in E2; contradiction
  | apply Bool.not_true_iff_false in E1; rewrite isNil_true in E1; contradiction
  | apply Bool.not_true_iff_false in E1; rewrite isNil_true in E1; contradiction ].
Qed.

(** ** Dummy blocks *)

(** C6: [isDummyBlock b] holds exactly when [b] has no instruction and no
    incoming edge (no block holds a terminator targeting it); [StartBlock]
    and the fallthrough step of [GenerateCode] both branch on this one
    predicate applied to the insertion block. *)
Theorem isDummyBlock_iff_empty_no_preds :
  (forall s b,
     isDummyBlock s b = true <->
     bb_insts (block_at s b) = [] /\
     (forall j i, j < length (Arena s) ->
        In i (bb_insts (nth j (Arena s) empty_block)) ->
        isTerminator i = true -> ~ In b (successors i))) /\
  (forall N s,
     StartBlock N s =
     (if isDummyBlock s (InsertBlock s)
      then SetBlockName (InsertBlock s) N
      else (NB <- NewBasicBlock N ;; EmitBlock NB)) s) /\
  (forall s,
     GC_fallthrough s =
     (if isDummyBlock s (InsertBlock s)
      then EraseBlockFromParent (InsertBlock s)
      else if lty_eqb (fn_retty (CurFn s)) VoidTy then CreateRetVoid
      else CreateRet (UndefValue (fn_retty (CurFn s)))) s).
Proof.
  split; [|split].
  - intros s b. rewrite isDummyBlock_true, pred_list_nil_iff. reflexivity.
  - intros N s. unfold StartBlock, bind, get.
    destruct (isDummyBlock s (InsertBlock s)); reflexivity.
  - intros s. reflexivity.
Qed.

(** ** The fallthrough step *)

Lemma InsertInst_effect : forall i s,
  InsertBlock s < length (Arena s) ->
  exists s', InsertInst i s = Ok (tt, s') /\
    CurFn s' = CurFn s /\ InsertBlock s' = InsertBlock s /\
    LabelMap s' = LabelMap s /\ BreakContinueStack s' = BreakContinueStack s /\
    AllocaInsertPt s' = AllocaInsertPt s /\
    length (Arena s') = length (Arena s) /\
    block_at s' (InsertBlock s) =
      mkBB (bb_name (block_at s (InsertBlock s)))
           (bb_insts (block_at s (InsertBlock s)) ++ [i]) /\
    (forall b, b <> InsertBlock s -> block_at s' b = block_at s b).
Proof.
  intros i s Hin. eexists. split; [reflexivity|].
  cbn. repeat split; auto.
  - apply update_nth_length.
  - unfold block_at. cbn. rewrite nth_update_nth_same; auto.
  - intros b Hb. unfold block_at. cbn. apply nth_update_nth_other. auto.
Qed.

(** C1: after the body has been emitted, the fallthrough step either
    detaches the insertion block when it is a dummy block (adding no
    instruction anywhere), or appends exactly one instruction to it:
    [ret void] when the function's return type is void, and otherwise
    [ret undef] of the return type (an undefined value, not zero); no other
    block changes. *)
Theorem fallthrough_terminator (s : CodeGenFunction)
  (Hin : InsertBlock s < length (Arena s)) :
  exists s', GC_fallthrough s = Ok (tt, s') /\
  (isDummyBlock s (InsertBlock s) = true ->
     Arena s' = Arena s /\
     fn_blocks (CurFn s') =
       filter (fun x => negb (Nat.eqb x (InsertBlock s))) (fn_blocks (CurFn s)) /\
     ~ In (InsertBlock s) (fn_blocks (CurFn s'))) /\
  (isDummyBlock s (InsertBlock s) = false ->
     fn_blocks (CurFn s') = fn_blocks (CurFn s) /\
     (forall b, b <> InsertBlock s -> block_at s' b = block_at s b) /\
     (fn_retty (CurFn s) = VoidTy ->
        bb_insts (block_at s' (InsertBlock s)) =
        bb_insts (block_at s (InsertBlock s)) ++ [ReturnInst None]) /\
     (fn_retty (CurFn s) <> VoidTy ->
        bb_insts (block_at s' (InsertBlock s)) =
        bb_insts (block_at s (InsertBlock s)) ++
          [ReturnInst (Some (UndefValue (fn_retty (CurFn s))))])).
Proof.
  destruct (isDummyBlock s (InsertBlock s)) eqn:Hd.
  - eexists. split.
    + unfold GC_fallthrough, bind, get. rewrite Hd. reflexivity.
    + split; [|discriminate]. intros _. cbn. split; [reflexivity|split; [reflexivity|]].
      intros Hx. apply filter_In in Hx. destruct Hx as [_ Hx].
      rewrite Nat.eqb_refl in Hx. discriminate.
  - destruct (lty_eqb (fn_retty (CurFn s)) VoidTy) eqn:Hv.
    + destruct (InsertInst_effect (ReturnInst None) s Hin)
        as (s' & Hs' & Hf & _ & _ & _ & _ & _ & Hb & Ho).
      exists s'. split.
      * unfold GC_fallthrough, bind, get. rewrite Hd, Hv. exact Hs'.
      * split; [discriminate|]. intros _. rewrite Hf.
        split; [reflexivity|split; [exact Ho|split]].
        -- intros _. rewrite Hb. reflexivity.
        -- intros Hne. apply lty_eqb_spec in Hv. contradiction.
    + destruct (InsertInst_effect (ReturnInst (Some (UndefValue (fn_retty (CurFn s))))) s Hin)
        as (s' & Hs' & Hf & _ & _ & _ & _ & _ & Hb & Ho).
      exists s'. split.
      * unfold GC_fallthrough, bind, get. rewrite Hd, Hv. exact Hs'.
      * split; [discriminate|]. intros _. rewrite Hf.
        split; [reflexivity|split; [exact Ho|split]].
        -- intros He. rewrite He in Hv. discriminate.
        -- intros _. rewrite Hb. reflexivity.
Qed.

(** ** Aggregate results and parameter binding *)

(** C10: [hasAggregateLLVMType] is false for void, real (integer, floating,
    bool, complete enum), pointer, reference, vector and function types; so
    for a function returning void no argument is named "agg.result" and the
    declared parameters are bound from the first IR argument on. *)
Theorem void_result_not_aggregate (C : CodeGenEnv) (FD : FunctionDecl)
  (Hvoid : fd_result FD = TVoid) :
  hasAggregateLLVMType TVoid = false /\
  (forall T, isRealType T = true -> hasAggregateLLVMType T = false) /\
  hasAggregateLLVMType TPointer = false /\
  hasAggregateLLVMType TReference = false /\
  hasAggregateLLVMType TVector = false /\
  hasAggregateLLVMType TFunctionType = false /\
  GC_params C FD = EmitParams C (fd_params FD) 0.
Proof.
  repeat split.
  - intros T H. unfold hasAggregateLLVMType. rewrite H. reflexivity.
  - unfold GC_params. rewrite Hvoid. reflexivity.
Qed.

(** ** Regenerating a body *)

(** C7: when the function the module hands out already has a body,
    [GenerateCode] aborts on its precondition ("Function already has
    body?") and yields no state at all. *)
Theorem GenerateCode_existing_body_fatal (C : CodeGenEnv) (FD : FunctionDecl)
  (s0 : CodeGenFunction)
  (Hbody : isDeclaration (GetAddrOfFunctionDecl C FD) = false) :
  GenerateCode C FD s0 = Fatal "Function already has body?".
Proof.
  unfold GenerateCode, GC_body, GC_prologue, GC_setup.
  unfold bind at 1 2 3 4 5 6. cbn. rewrite Hbody. reflexivity.
Qed.

(** ** Linkage and parameter attributes *)

Lemma GC_attributes_effect : forall FD s,
  exists f, GC_attributes FD s = Ok (tt, set_curfn s f) /\
    fn_linkage f = fn_linkage (ApplyLinkage FD (CurFn s)) /\
    fn_paramattrs f =
      (if isNil (ParamAttrsVecFor FD) then fn_paramattrs (CurFn s)
       else ParamAttrsVecFor FD) /\
    fn_blocks f = fn_blocks (CurFn s).
Proof.
  intros FD s. unfold GC_attributes.
  destruct (fd_visibility FD) as [v|];
  destruct (isNil (ParamAttrsVecFor FD)) eqn:E;
  (eexists; split;
   [ cbv beta iota zeta delta [bind modify_fn modify ret]; reflexivity
   | cbn; unfold ApplyLinkage; destruct (LinkageFor FD); cbn; auto ]).
Qed.

(** C2: applied to the function the module hands out for a declaration
    (created with the default external linkage), the attribute step sets the
    linkage by first match: import marker, export marker, weak or inline
    marker, static storage, default external; a declaration marked both
    import and static gets import linkage. *)
Theorem linkage_precedence (FD : FunctionDecl) (s : CodeGenFunction)
  (Hext : fn_linkage (CurFn s) = ExternalLinkage) :
  exists s', GC_attributes FD s = Ok (tt, s') /\
    fn_linkage (CurFn s') = SpecLinkage FD /\
    (fd_dllimport FD = true -> isStatic (fd_storage FD) = true ->
     fn_linkage (CurFn s') = DLLImportLinkage).
Proof.
  destruct (GC_attributes_effect FD s) as (f & Hs & Hl & _ & _).
  exists (set_curfn s f). split; [exact Hs|]. cbn. rewrite Hl.
  unfold ApplyLinkage, LinkageFor, SpecLinkage.
  destruct (fd_dllimport FD); [split; reflexivity|].
  split; [|discriminate].
  destruct (fd_dllexport FD); [reflexivity|].
  destruct (fd_weak FD || fd_inline FD); [reflexivity|].
  destruct (isStatic (fd_storage FD)); [reflexivity|exact Hext].
Qed.

Lemma ParamAttrsVec_kinds : forall FD,
  map snd (ParamAttrsVecFor FD) =
  (if fd_nothrow FD then [NoUnwind] else []) ++
  (if fd_noreturn FD then [NoReturn] else []).
Proof.
  intros FD. unfold ParamAttrsVecFor, push_attr.
  destruct (fd_nothrow FD), (fd_noreturn FD); reflexivity.
Qed.

(** C3: the attribute kinds derived from a declaration contain no-unwind
    exactly when it is marked non-throwing and no-return exactly when it is
    marked non-returning, without duplicates; with both markers the kinds are
    exactly [no-unwind; no-return] (pushed at positions 0 and 1), the same
    set as when the markers are considered in the other order, and this list
    is what the function receives. *)
Theorem param_attrs_nounwind_noreturn (FD : FunctionDecl)
  (Hnt : fd_nothrow FD = true) (Hnr : fd_noreturn FD = true) :
  ParamAttrsVecFor FD = [(0, NoUnwind); (1, NoReturn)] /\
  map snd (ParamAttrsVecFor FD) = [NoUnwind; NoReturn] /\
  NoDup (map snd (ParamAttrsVecFor FD)) /\
  Permutation (map snd (ParamAttrsVecFor FD)) (map snd (ParamAttrsVecSwapped FD)) /\
  (forall s, exists s', GC_attributes FD s = Ok (tt, s') /\
     fn_paramattrs (CurFn s') = [(0, NoUnwind); (1, NoReturn)]) /\
  (forall FD',
     (In NoUnwind (map snd (ParamAttrsVecFor FD')) <-> fd_nothrow FD' = true) /\
     (In NoReturn (map snd (ParamAttrsVecFor FD')) <-> fd_noreturn FD' = true) /\
     NoDup (map snd (ParamAttrsVecFor FD'))).
Proof.
  assert (Hv : ParamAttrsVecFor FD = [(0, NoUnwind); (1, NoReturn)]).
  { unfold ParamAttrsVecFor, push_attr. rewrite Hnt, Hnr. reflexivity. }
  split; [exact Hv|]. rewrite Hv.
  split; [reflexivity|]. split.
  { constructor; [simpl; intros [H|[]]; discriminate|].
    constructor; [intros []|constructor]. }
  split.
  { unfold ParamAttrsVecSwapped, push_attr. rewrite Hnt, Hnr. simpl.
    apply perm_swap. }
  split.
  { intros s. destruct (GC_attributes_effect FD s) as (f & Hs & _ & Hp & _).
    exists (set_curfn s f). split; [exact Hs|]. cbn. rewrite Hp, Hv. reflexivity. }
  intros FD'. rewrite ParamAttrsVec_kinds.
  destruct (fd_nothrow FD'), (fd_noreturn FD'); simpl; (split; [|split]);
    try (split; intros H; intuition (try discriminate; auto));
    repeat constructor; simpl; intuition discriminate.
Qed.

(** ** Arena facts *)

Lemma nth_app_last : forall (l : list BasicBlock) x b,
  nth b (l ++ [x]) empty_block =
  if b <? length l then nth b l empty_block
  else if b =? length l then x else empty_block.
Proof.
  intros l x b.
  destruct (Nat.ltb_spec b (length l)) as [Hlt|Hge].
  - apply app_nth1. exact Hlt.
  - rewrite app_nth2 by exact Hge.
    destruct (Nat.eqb_spec b (length l)) as [->|Hne].
    + rewrite Nat.sub_diag. reflexivity.
    + destruct (b - length l) eqn:E; [lia|]. simpl. destruct n; reflexivity.
Qed.

Lemma nth_overflow_block : forall (l : list BasicBlock) b,
  length l <= b -> nth b l empty_block = empty_block.
Proof. intros. apply nth_overflow. exact H. Qed.

(** Predecessors only depend on the instructions of the blocks. *)
Lemma pred_list_ext : forall ar1 ar2 b,
  length ar1 = length ar2 ->
  (forall j, bb_insts (nth j ar1 empty_block) = bb_insts (nth j ar2 empty_block)) ->
  pred_list ar1 b = pred_list ar2 b.
Proof.
  intros ar1 ar2 b Hl Hj. unfold pred_list. rewrite Hl.
  apply filter_ext. intros j. rewrite Hj. reflexivity.
Qed.

(** Every branch in the arena targets an allocated block. *)
Definition branch_targets_ok (s : CodeGenFunction) : Prop :=
  forall j i t, In i (bb_insts (nth j (Arena s) empty_block)) ->
                In t (successors i) -> t < length (Arena s).

Lemma pred_list_fresh_block : forall s N,
  branch_targets_ok s ->
  pred_list (Arena s ++ [mkBB N []]) (length (Arena s)) = [].
Proof.
  intros s N Hwf. apply pred_list_nil_iff.
  intros j i Hj Hi _ Ht. rewrite nth_app_last in Hi.
  destruct (Nat.ltb_spec j (length (Arena s))) as [Hlt|Hge].
  - specialize (Hwf j i (length (Arena s)) Hi Ht). lia.
  - destruct (j =? length (Arena s)); simpl in Hi; exact Hi.
Qed.

(** ** Label blocks *)

(** C4: looking up a label's block always succeeds; repeating the lookup
    returns the same block and changes nothing; a lookup adds no
    instruction to any block, and leaves the function's block list and the
    insertion block alone; on the first reference the block is a fresh,
    empty block named after the label that is not in the function's block
    list; while it stays out of that list, emitting instructions at the
    insertion point leaves it unchanged. *)
Theorem getBasicBlockForLabel_idempotent (L : LabelStmt) (s : CodeGenFunction)
  (Hwf : forall b, In b (fn_blocks (CurFn s)) -> b < length (Arena s))
  (Hcur : In (InsertBlock s) (fn_blocks (CurFn s))) :
  exists BB s1, getBasicBlockForLabel L s = Ok (BB, s1) /\
    getBasicBlockForLabel L s1 = Ok (BB, s1) /\
    (forall b, bb_insts (block_at s1 b) = bb_insts (block_at s b)) /\
    fn_blocks (CurFn s1) = fn_blocks (CurFn s) /\
    InsertBlock s1 = InsertBlock s /\
    (lookup_label (ls_id L) (LabelMap s) = None ->
       BB = length (Arena s) /\ ~ In BB (fn_blocks (CurFn s1)) /\
       block_at s1 BB = mkBB (ls_name L) []) /\
    (~ In BB (fn_blocks (CurFn s1)) ->
       forall i s2, InsertInst i s1 = Ok (tt, s2) -> block_at s2 BB = block_at s1 BB).
Proof.
  assert (Hframe : forall s1 BB, In (InsertBlock s1) (fn_blocks (CurFn s1)) ->
            ~ In BB (fn_blocks (CurFn s1)) ->
            forall i s2, InsertInst i s1 = Ok (tt, s2) -> block_at s2 BB = block_at s1 BB).
  { intros s1 BB Hc Hn i s2 H.
    cbv [InsertInst InsertInstAt update_block bind get modify] in H.
    injection H as <-. unfold block_at. cbn.
    apply nth_update_nth_other. intros ->. contradiction. }
  destruct (lookup_label (ls_id L) (LabelMap s)) as [BB|] eqn:Hl.
  - exists BB, s.
    assert (Hg : getBasicBlockForLabel L s = Ok (BB, s)).
    { unfold getBasicBlockForLabel, bind, get. rewrite Hl. reflexivity. }
    split; [exact Hg|split; [exact Hg|]].
    split; [reflexivity|split; [reflexivity|split; [reflexivity|split]]].
    + intros H. discriminate.
    + apply Hframe. exact Hcur.
  - exists (length (Arena s)),
      (set_labelmap (set_arena s (Arena s ++ [mkBB (ls_name L) []]))
                    ((ls_id L, length (Arena s)) :: LabelMap s)).
    split.
    { unfold getBasicBlockForLabel, bind, get. rewrite Hl. reflexivity. }
    split.
    { unfold getBasicBlockForLabel, bind, get, ret. cbn.
      rewrite Nat.eqb_refl. reflexivity. }
    assert (Hnin : ~ In (length (Arena s)) (fn_blocks (CurFn s))).
    { intros H. apply Hwf in H. lia. }
    split.
    { intros b. unfold block_at. cbn. rewrite nth_app_last.
      destruct (Nat.ltb_spec b (length (Arena s))); [reflexivity|].
      rewrite nth_overflow_block by lia.
      destruct (b =? length (Arena s)); reflexivity. }
    split; [reflexivity|split; [reflexivity|split]].
    + intros _. split; [reflexivity|split; [exact Hnin|]].
      unfold block_at. cbn. rewrite nth_app_last.
      rewrite Nat.ltb_irrefl, Nat.eqb_refl. reflexivity.
    + apply Hframe. exact Hcur.
Qed.

(** ** StartBlock *)

Lemma StartBlock_dummy : forall N s,
  isDummyBlock s (InsertBlock s) = true ->
  StartBlock N s =
  Ok (tt, set_arena s (update_nth (Arena s) (InsertBlock s)
                                  (fun B => mkBB N (bb_insts B)))).
Proof.
  intros N s Hd. unfold StartBlock, bind, get. rewrite Hd. reflexivity.
Qed.

Lemma StartBlock_fresh : forall N s,
  isDummyBlock s (InsertBlock s) = false ->
  StartBlock N s =
  Ok (tt, set_insert
            (set_curfn (set_arena s (Arena s ++ [mkBB N []]))
                       (setBlocks (CurFn s) (fn_blocks (CurFn s) ++ [length (Arena s)])))
            (length (Arena s))).
Proof.
  intros N s Hd. unfold StartBlock, bind, get. rewrite Hd. reflexivity.
Qed.

Lemma rename_keeps_dummy : forall s N,
  InsertBlock s < length (Arena s) ->
  isDummyBlock s (InsertBlock s) = true ->
  let s1 := set_arena s (update_nth (Arena s) (InsertBlock s) (fun B => mkBB N (bb_insts B))) in
  block_at s1 (InsertBlock s) = mkBB N [] /\
  (forall b, b <> InsertBlock s -> block_at s1 b = block_at s b) /\
  pred_list (Arena s1) (InsertBlock s) = pred_list (Arena s) (InsertBlock s) /\
  isDummyBlock s1 (InsertBlock s) = true.
Proof.
  intros s N Hin Hd s1. apply isDummyBlock_true in Hd. destruct Hd as [Hi Hp].
  assert (Hb : block_at s1 (InsertBlock s) = mkBB N []).
  { unfold s1, block_at. cbn. rewrite nth_update_nth_same by exact Hin.
    unfold block_at in Hi. rewrite Hi. reflexivity. }
  assert (Ho : forall b, b <> InsertBlock s -> block_at s1 b = block_at s b).
  { intros b Hne. unfold s1, block_at. cbn. apply nth_update_nth_other. exact Hne. }
  assert (Hpl : pred_list (Arena s1) (InsertBlock s) = pred_list (Arena s) (InsertBlock s)).
  { apply pred_list_ext; unfold s1; cbn.
    - apply update_nth_length.
    - intros j. destruct (Nat.eq_dec j (InsertBlock s)) as [->|Hne].
      + rewrite nth_update_nth_same by exact Hin. reflexivity.
      + rewrite nth_update_nth_other by exact Hne. reflexivity. }
  split; [exact Hb|split; [exact Ho|split; [exact Hpl|]]].
  apply isDummyBlock_true. rewrite Hb, Hpl. split; [reflexivity|exact Hp].
Qed.

(** C5: [StartBlock N] renames the insertion block in place and stays on
    it when that block is a dummy block, and otherwise creates a new block
    named [N], attaches it and moves the insertion point there; in both
    cases the insertion block is then a dummy block, so a second
    [StartBlock] reuses it: same block, new name, still no instruction,
    same predecessors, and nothing else changes. *)
Theorem StartBlock_twice_reuses (N1 N2 : string) (s : CodeGenFunction)
  (Hin : InsertBlock s < length (Arena s)) (Hwf : branch_targets_ok s) :
  exists s1 s2, StartBlock N1 s = Ok (tt, s1) /\ StartBlock N2 s1 = Ok (tt, s2) /\
    (isDummyBlock s (InsertBlock s) = true ->
       InsertBlock s1 = InsertBlock s /\
       block_at s1 (InsertBlock s) = mkBB N1 [] /\
       (forall b, b <> InsertBlock s -> block_at s1 b = block_at s b) /\
       fn_blocks (CurFn s1) = fn_blocks (CurFn s)) /\
    (isDummyBlock s (InsertBlock s) = false ->
       InsertBlock s1 = length (Arena s) /\
       block_at s1 (InsertBlock s1) = mkBB N1 [] /\
       In (InsertBlock s1) (fn_blocks (CurFn s1)) /\
       (forall b, b < length (Arena s) -> block_at s1 b = block_at s b)) /\
    isDummyBlock s1 (InsertBlock s1) = true /\
    InsertBlock s2 = InsertBlock s1 /\
    block_at s2 (InsertBlock s1) = mkBB N2 [] /\
    bb_insts (block_at s2 (InsertBlock s1)) = bb_insts (block_at s1 (InsertBlock s1)) /\
    pred_list (Arena s2) (InsertBlock s1) = pred_list (Arena s1) (InsertBlock s1) /\
    (forall b, b <> InsertBlock s1 -> block_at s2 b = block_at s1 b) /\
    fn_blocks (CurFn s2) = fn_blocks (CurFn s1).
Proof.
  (* the second call, from any state whose insertion block is a dummy block *)
  assert (Hsecond : forall s1, InsertBlock s1 < length (Arena s1) ->
            isDummyBlock s1 (InsertBlock s1) = true ->
            bb_insts (block_at s1 (InsertBlock s1)) = [] ->
            exists s2, StartBlock N2 s1 = Ok (tt, s2) /\
              InsertBlock s2 = InsertBlock s1 /\
              block_at s2 (InsertBlock s1) = mkBB N2 [] /\
              bb_insts (block_at s2 (InsertBlock s1)) = bb_insts (block_at s1 (InsertBlock s1)) /\
              pred_list (Arena s2) (InsertBlock s1) = pred_list (Arena s1) (InsertBlock s1) /\
              (forall b, b <> InsertBlock s1 -> block_at s2 b = block_at s1 b) /\
              fn_blocks (CurFn s2) = fn_blocks (CurFn s1)).
  { intros s1 Hin1 Hd1 Hi1.
    destruct (rename_keeps_dummy s1 N2 Hin1 Hd1) as (Hb & Ho & Hp & _).
    eexists. split; [apply StartBlock_dummy; exact Hd1|].
    cbn [InsertBlock set_arena]. rewrite Hb, Hi1.
    split; [reflexivity|split; [reflexivity|split; [reflexivity|]]].
    split; [exact Hp|split; [exact Ho|reflexivity]]. }
  destruct (isDummyBlock s (InsertBlock s)) eqn:Hd.
  - destruct (rename_keeps_dummy s N1 Hin Hd) as (Hb & Ho & Hp & Hd1).
    set (s1 := set_arena s (update_nth (Arena s) (InsertBlock s)
                                       (fun B => mkBB N1 (bb_insts B)))) in *.
    assert (Hin1 : InsertBlock s1 < length (Arena s1)).
    { unfold s1. cbn. rewrite update_nth_length. exact Hin. }
    destruct (Hsecond s1 Hin1 Hd1) as (s2 & H2 & R); [change (InsertBlock s1) with (InsertBlock s); rewrite Hb; reflexivity|].
    exists s1, s2. split; [apply StartBlock_dummy; exact Hd|].
    split; [exact H2|]. split; [|split; [discriminate|split; [exact Hd1|exact R]]].
    intros _. split; [reflexivity|split; [exact Hb|split; [exact Ho|reflexivity]]].
  - set (s1 := set_insert
            (set_curfn (set_arena s (Arena s ++ [mkBB N1 []]))
                       (setBlocks (CurFn s) (fn_blocks (CurFn s) ++ [length (Arena s)])))
            (length (Arena s))).
    assert (Hb1 : block_at s1 (InsertBlock s1) = mkBB N1 []).
    { unfold s1, block_at. cbn. rewrite nth_app_last.
      rewrite Nat.ltb_irrefl, Nat.eqb_refl. reflexivity. }
    assert (Hd1 : isDummyBlock s1 (InsertBlock s1) = true).
    { apply isDummyBlock_true. rewrite Hb1. split; [reflexivity|].
      unfold s1. cbn. apply pred_list_fresh_block. exact Hwf. }
    assert (Hin1 : InsertBlock s1 < length (Arena s1)).
    { unfold s1. cbn. rewrite length_app. simpl. lia. }
    destruct (Hsecond s1 Hin1 Hd1) as (s2 & H2 & R); [rewrite Hb1; reflexivity|].
    exists s1, s2. split; [apply StartBlock_fresh; exact Hd|].
    split; [exact H2|]. split; [discriminate|split; [|split; [exact Hd1|exact R]]].
    intros _. split; [reflexivity|split; [exact Hb1|split]].
    + unfold s1. cbn. apply in_or_app. right. left. reflexivity.
    + intros b Hb. unfold s1, block_at. cbn. rewrite nth_app_last.
      apply Nat.ltb_lt in Hb. rewrite Hb. reflexivity.
Qed.

(** ** Invariants of monadic steps *)

Definition respects {A} (I : CodeGenFunction -> Prop) (m : CG A) : Prop :=
  forall s a s', m s = Ok (a, s') -> I s -> I s'.

Lemma respects_ret {A} I (a : A) : respects I (ret a).
Proof. intros s x s' H HI. injection H as _ <-. exact HI. Qed.

Lemma respects_get I : respects I get.
Proof. intros s x s' H HI. injection H as _ <-. exact HI. Qed.

Lemma respects_assert I b msg : respects I (assert b msg).
Proof.
  intros s x s' H HI. unfold assert in H. destruct b; [|discriminate].
  injection H as _ <-. exact HI.
Qed.

Lemma respects_modify (I : CodeGenFunction -> Prop) f :
  (forall s, I s -> I (f s)) -> respects I (modify f).
Proof. intros Hf s x s' H HI. injection H as _ <-. apply Hf. exact HI. Qed.

Lemma respects_bind {A B} I (m : CG A) (k : A -> CG B) :
  respects I m -> (forall a, respects I (k a)) -> respects I (bind m k).
Proof.
  intros Hm Hk s b s' H HI. unfold bind in H.
  destruct (m s) as [[a s1]|e] eqn:E; [|discriminate].
  apply (Hk a s1 b s' H). apply (Hm s a s1 E HI).
Qed.

Lemma bind_Ok_inv {A B} (m : CG A) (k : A -> CG B) s b s' :
  bind m k s = Ok (b, s') -> exists a s1, m s = Ok (a, s1) /\ k a s1 = Ok (b, s').
Proof.
  unfold bind. destruct (m s) as [[a s1]|e]; [|discriminate].
  intros H. exists a, s1. split; [reflexivity|exact H].
Qed.

Ltac respects_struct :=
  repeat match goal with
  | |- respects _ (bind _ _) => apply respects_bind; [|intros ?; cbv beta]
  | |- respects _ (ret _) => apply respects_ret
  | |- respects _ get => apply respects_get
  | |- respects _ (assert _ _) => apply respects_assert
  | |- respects _ (if ?b then _ else _) => destruct b
  | |- respects _ (match ?x with _ => _ end) => destruct x
  | |- respects _ (modify _) =>
      apply respects_modify;
      let s := fresh "s" in let H := fresh "HI" in intros s H; try exact H
  end.

Ltac unfold_steps :=
  unfold GC_setup, GC_attributes, GC_entry, GC_params, GC_fallthrough,
    GC_finish, GC_teardown, NewBasicBlockInFn, NewBasicBlock, CreateRetVoid,
    CreateRet, InsertInst, InsertInstAt, EraseAllocaInsertPt, update_block,
    SetInsertPoint, EraseBlockFromParent, modify_fn;
  cbv beta zeta.

Lemma EmitParams_respects (C : CodeGenEnv) (I : CodeGenFunction -> Prop) :
  (forall P i, respects I (EmitParmDecl C P i)) ->
  forall ps AI, respects I (EmitParams C ps AI).
Proof.
  intros Hp ps. induction ps as [|P ps IH]; intros AI; simpl.
  - apply respects_ret.
  - respects_struct; auto.
Qed.

Definition stack_is (k : list (nat * nat)) (s : CodeGenFunction) : Prop :=
  BreakContinueStack s = k.

Lemma GC_prologue_stack (C : CodeGenEnv) (FD : FunctionDecl) k :
  (forall P i, respects (stack_is k) (EmitParmDecl C P i)) ->
  respects (stack_is k) (GC_prologue C FD).
Proof.
  intros Hp. unfold GC_prologue. unfold_steps.
  respects_struct; apply EmitParams_respects; exact Hp.
Qed.

Lemma GC_fallthrough_stack k : respects (stack_is k) GC_fallthrough.
Proof. unfold_steps. respects_struct. Qed.

(** ** The allocation anchor *)

Definition anchored (e : nat) (s : CodeGenFunction) : Prop :=
  AllocaInsertPt s = Some e /\ In e (fn_blocks (CurFn s)) /\
  In AllocaInsertPtInst (bb_insts (block_at s e)).

Lemma anchor_not_dummy : forall s b,
  In AllocaInsertPtInst (bb_insts (block_at s b)) -> isDummyBlock s b = false.
Proof.
  intros s b Hi. apply Bool.not_true_iff_false. intros Hd.
  apply isDummyBlock_true in Hd. destruct Hd as [He _]. rewrite He in Hi. exact Hi.
Qed.

Lemma append_keeps_in : forall l b e i x,
  In x (bb_insts (nth e l empty_block)) ->
  In x (bb_insts (nth e (update_nth l b (fun B => mkBB (bb_name B) (bb_insts B ++ [i])))
                      empty_block)).
Proof.
  intros l b e i x Hx. destruct (Nat.eq_dec e b) as [->|Hne].
  - destruct (Nat.lt_ge_cases b (length l)) as [Hlt|Hge].
    + rewrite nth_update_nth_same by exact Hlt. simpl. apply in_or_app. left. exact Hx.
    + rewrite nth_overflow_block in Hx by exact Hge. destruct Hx.
  - rewrite nth_update_nth_other by exact Hne. exact Hx.
Qed.

Lemma GC_fallthrough_anchored e : respects (anchored e) GC_fallthrough.
Proof.
  intros s a s' H (Ha & Hb & Hi). unfold GC_fallthrough, bind, get in H.
  destruct (isDummyBlock s (InsertBlock s)) eqn:Hd.
  - unfold EraseBlockFromParent, modify_fn, modify in H. injection H as _ <-.
    assert (Hne : e <> InsertBlock s).
    { intros ->. rewrite (anchor_not_dummy s _ Hi) in Hd. discriminate. }
    split; [exact Ha|split; [|exact Hi]]. cbn.
    apply filter_In. split; [exact Hb|].
    apply Bool.negb_true_iff. apply Nat.eqb_neq. exact Hne.
  - destruct (lty_eqb (fn_retty (CurFn s)) VoidTy);
      cbv [CreateRetVoid CreateRet InsertInst InsertInstAt update_block bind get modify] in H;
      injection H as _ <-;
      (split; [exact Ha|split; [exact Hb|]]);
      unfold block_at in *; cbn; apply append_keeps_in; exact Hi.
Qed.

Lemma GC_params_anchored (C : CodeGenEnv) (FD : FunctionDecl) e :
  (forall P i, respects (anchored e) (EmitParmDecl C P i)) ->
  respects (anchored e) (GC_params C FD).
Proof.
  intros Hp. unfold GC_params, modify_fn. respects_struct;
    apply EmitParams_respects; exact Hp.
Qed.

Lemma GC_entry_effect : forall s,
  exists s', GC_entry s = Ok (tt, s') /\
    anchored (length (Arena s)) s' /\
    block_at s' (length (Arena s)) = mkBB "entry" [AllocaInsertPtInst] /\
    fn_blocks (CurFn s') = fn_blocks (CurFn s) ++ [length (Arena s)] /\
    InsertBlock s' = length (Arena s).
Proof.
  intros s. eexists. split; [reflexivity|].
  assert (Hblk : nth (length (Arena s))
                   (update_nth (Arena s ++ [mkBB "entry" []]) (length (Arena s))
                      (fun B => mkBB (bb_name B) (bb_insts B ++ [AllocaInsertPtInst])))
                   empty_block = mkBB "entry" [AllocaInsertPtInst]).
  { rewrite nth_update_nth_same by (rewrite length_app; simpl; lia).
    rewrite nth_app_last, Nat.ltb_irrefl, Nat.eqb_refl. reflexivity. }
  unfold anchored, block_at. cbn. rewrite Hblk.
  split; [split; [reflexivity|split]|split; [reflexivity|split; reflexivity]].
  - apply in_or_app. right. left. reflexivity.
  - left. reflexivity.
Qed.

Lemma GC_setup_arena (C : CodeGenEnv) (FD : FunctionDecl) s a s' :
  GC_setup C FD s = Ok (a, s') ->
  Arena s' = Arena s /\ fn_blocks (CurFn s') = [].
Proof.
  unfold GC_setup, bind, modify, get, assert. cbn.
  destruct (isDeclaration (GetAddrOfFunctionDecl C FD)) eqn:E; [|discriminate].
  intros H. injection H as _ <-. split; [reflexivity|].
  cbn. unfold isDeclaration in E. apply isNil_true in E. exact E.
Qed.

(** ** The break/continue stack at the end of a function *)

(** C8: starting from a fresh [CodeGenFunction] (empty break/continue
    stack), when the parameter emitter leaves the stack alone and the body's
    emission pops every frame it pushes, then whenever the body has been
    emitted and the fallthrough step has run, the stack is empty: the
    assertion of lines 138-139 passes and [GenerateCode] goes on to remove
    the allocation anchor; if an earlier step aborts, so does
    [GenerateCode]. *)
Theorem break_continue_stack_empty_at_end (C : CodeGenEnv) (FD : FunctionDecl)
  (s0 : CodeGenFunction)
  (Hfresh : BreakContinueStack s0 = [])
  (Hparm : forall P i q u q', EmitParmDecl C P i q = Ok (u, q') ->
           BreakContinueStack q' = BreakContinueStack q)
  (Hbody : forall s1 u s2, GC_prologue C FD s0 = Ok (tt, s1) ->
           EmitStmt C (fd_body FD) s1 = Ok (u, s2) ->
           BreakContinueStack s2 = BreakContinueStack s1) :
  match GC_body C FD s0 with
  | Ok (_, s) => BreakContinueStack s = [] /\ GenerateCode C FD s0 = GC_teardown C s
  | Fatal e => GenerateCode C FD s0 = Fatal e
  end.
Proof.
  destruct (GC_body C FD s0) as [[u s]|e] eqn:Hb.
  - assert (Hs : BreakContinueStack s = []).
    { unfold GC_body in Hb.
      apply bind_Ok_inv in Hb. destruct Hb as ([] & s1 & H1 & Hb).
      apply bind_Ok_inv in Hb. destruct Hb as (x & s2 & H2 & H3).
      assert (E1 : BreakContinueStack s1 = []).
      { apply (GC_prologue_stack C FD [] (fun P i q a q' Hq Hk =>
                 eq_trans (Hparm P i q a q' Hq) Hk) s0 tt s1 H1 Hfresh). }
      assert (E2 : BreakContinueStack s2 = []).
      { rewrite (Hbody s1 x s2 H1 H2). exact E1. }
      apply (GC_fallthrough_stack [] s2 u s H3 E2). }
    split; [exact Hs|].
    unfold GenerateCode. rewrite (bind_Ok _ _ _ _ _ Hb).
    unfold GC_finish, bind, get, assert. rewrite Hs. reflexivity.
  - unfold GenerateCode. apply bind_Fatal. exact Hb.
Qed.

(** ** The entry block *)

(** C9: a block holding the allocation anchor is never a dummy block;
    [GC_entry] creates the block "entry" holding only the anchor, attached
    to the function; the fallthrough step keeps the anchor's block attached
    (it can only detach a dummy block); so, when the parameter and body
    emitters keep the anchor in its attached block, every completed
    [GenerateCode] leaves the entry block in the function. *)
Theorem entry_block_never_erased (C : CodeGenEnv) (FD : FunctionDecl)
  (s0 : CodeGenFunction)
  (Hparm : forall P i e, respects (anchored e) (EmitParmDecl C P i))
  (Hbody : forall e, respects (anchored e) (EmitStmt C (fd_body FD))) :
  (forall s b, In AllocaInsertPtInst (bb_insts (block_at s b)) ->
               isDummyBlock s b = false) /\
  (forall s, exists s', GC_entry s = Ok (tt, s') /\
     anchored (length (Arena s)) s' /\
     block_at s' (length (Arena s)) = mkBB "entry" [AllocaInsertPtInst]) /\
  (forall e, respects (anchored e) GC_fallthrough) /\
  match GenerateCode C FD s0 with
  | Ok (_, s) => In (length (Arena s0)) (fn_blocks (CurFn s))
  | Fatal _ => True
  end.
Proof.
  split; [exact anchor_not_dummy|].
  split.
  { intros s. destruct (GC_entry_effect s) as (s' & H & Ha & Hb & _).
    exists s'. split; [exact H|split; [exact Ha|exact Hb]]. }
  split; [exact GC_fallthrough_anchored|].
  destruct (GenerateCode C FD s0) as [[u s]|e] eqn:Hg; [|exact I].
  unfold GenerateCode in Hg. apply bind_Ok_inv in Hg.
  destruct Hg as (x & s3 & Hbody3 & Hfin).
  unfold GC_body in Hbody3. apply bind_Ok_inv in Hbody3.
  destruct Hbody3 as (x1 & s1 & Hpro & Hrest).
  apply bind_Ok_inv in Hrest. destruct Hrest as (x2 & s2 & Hst & Hft).
  unfold GC_prologue in Hpro.
  apply bind_Ok_inv in Hpro. destruct Hpro as (y1 & sa & Hsetup & Hpro).
  apply bind_Ok_inv in Hpro. destruct Hpro as (y2 & sb & Hattr & Hpro).
  apply bind_Ok_inv in Hpro. destruct Hpro as (y3 & sc & Hentry & Hparams).
  destruct (GC_setup_arena C FD s0 y1 sa Hsetup) as [Ea _].
  destruct (GC_attributes_effect FD sa) as (f & Hattr' & _).
  rewrite Hattr' in Hattr. injection Hattr as _ <-.
  destruct (GC_entry_effect (set_curfn sa f)) as (sc' & Hentry' & Hanc & _).
  rewrite Hentry' in Hentry. injection Hentry as _ <-.
  cbn [Arena set_curfn] in Hanc. rewrite Ea in Hanc.
  set (e0 := length (Arena s0)) in *.
  assert (A1 : anchored e0 s1) by (apply (GC_params_anchored C FD e0 (fun P i => Hparm P i e0) _ _ _ Hparams Hanc)).
  assert (A2 : anchored e0 s2) by (apply (Hbody e0 _ _ _ Hst A1)).
  assert (A3 : anchored e0 s3) by (apply (GC_fallthrough_anchored e0 _ _ _ Hft A2)).
  assert (Hkeep : respects (fun s => In e0 (fn_blocks (CurFn s))) (GC_finish C)).
  { unfold_steps. respects_struct. }
  apply (Hkeep s3 u s Hfin). destruct A3 as (_ & Hin & _). exact Hin.
Qed.

(** * Further properties of CodeGenFunction.cpp *)


Lemma GC_attributes_keeps : forall FD s,
  exists s', GC_attributes FD s = Ok (tt, s') /\
    Arena s' = Arena s /\ InsertBlock s' = InsertBlock s /\
    LabelMap s' = LabelMap s /\ BreakContinueStack s' = BreakContinueStack s /\
    AllocaInsertPt s' = AllocaInsertPt s /\
    fn_blocks (CurFn s') = fn_blocks (CurFn s) /\
    fn_retty (CurFn s') = fn_retty (CurFn s) /\
    fn_nargs (CurFn s') = fn_nargs (CurFn s) /\
    fn_visibility (CurFn s') =
      match fd_visibility FD with
      | Some v => v
      | None => fn_visibility (CurFn s)
      end /\
    (fd_nothrow FD = false -> fd_noreturn FD = false ->
       fn_paramattrs (CurFn s') = fn_paramattrs (CurFn s)).
Proof.
  intros FD s. unfold GC_attributes.
  assert (HL : forall f, fn_blocks (ApplyLinkage FD f) = fn_blocks f /\
                         fn_retty (ApplyLinkage FD f) = fn_retty f /\
                         fn_nargs (ApplyLinkage FD f) = fn_nargs f /\
                         fn_visibility (ApplyLinkage FD f) = fn_visibility f /\
                         fn_paramattrs (ApplyLinkage FD f) = fn_paramattrs f).
  { intros f. unfold ApplyLinkage. destruct (LinkageFor FD); repeat split. }
  destruct (HL (CurFn s)) as (H1 & H2 & H3 & H4 & H5).
  unfold ParamAttrsVecFor.
  destruct (fd_visibility FD) as [v|];
  destruct (fd_nothrow FD); destruct (fd_noreturn FD);
  (eexists; split;
   [ cbv beta iota zeta delta [bind modify_fn modify ret push_attr isNil]; reflexivity
   | cbn; repeat split; auto; intros; discriminate ]).
Qed.


(** X3: a completed [GenerateCode] means the function handed out by the
    module had no body, the break/continue stack is empty, the allocation
    anchor pointer has been cleared, and the verifier accepted the final
    state. *)
Theorem GenerateCode_Ok_facts (C : CodeGenEnv) (FD : FunctionDecl)
  (s0 s : CodeGenFunction) (u : unit)
  (H : GenerateCode C FD s0 = Ok (u, s)) :
  isDeclaration (GetAddrOfFunctionDecl C FD) = true /\
  BreakContinueStack s = [] /\
  AllocaInsertPt s = None /\
  verifyFunction C s = false.
Proof.
  unfold GenerateCode in H. apply bind_Ok_inv in H.
  destruct H as (x & s3 & Hb & Hf).
  unfold GC_body, GC_prologue in Hb.
  apply bind_Ok_inv in Hb. destruct Hb as (x1 & s1 & Hp & _).
  apply bind_Ok_inv in Hp. destruct Hp as (x2 & sa & Hs & _).
  split.
  { unfold GC_setup, bind, modify, get, assert in Hs. cbn in Hs.
    destruct (isDeclaration (GetAddrOfFunctionDecl C FD)); [reflexivity|discriminate]. }
  unfold GC_finish, GC_teardown, EraseAllocaInsertPt, bind, get, assert in Hf.
  destruct (isNil (BreakContinueStack s3)) eqn:Es; [|discriminate].
  apply isNil_true in Es.
  destruct (AllocaInsertPt s3) as [b|]; [|discriminate].
  cbv [update_block modify] in Hf.
  destruct (verifyFunction C _) eqn:Ev; [discriminate|].
  cbn in Hf. injection Hf as _ <-. cbn.
  split; [exact Es|split; [reflexivity|exact Ev]].
Qed.

Lemma remove_first_anchor_count : forall l,
  anchor_count l <> 0 ->
  anchor_count (remove_first_anchor l) = anchor_count l - 1 /\
  filter (fun i => negb (isAllocaInsertPt i)) (remove_first_anchor l) =
  filter (fun i => negb (isAllocaInsertPt i)) l.
Proof.
  unfold anchor_count. induction l as [|i l IH]; cbn; intros Hc; [lia|].
  destruct (isAllocaInsertPt i) eqn:Ei; cbn.
  - split; [lia|reflexivity].
  - rewrite Ei. cbn. destruct (IH Hc) as [H1 H2]. rewrite H2.
    split; [exact H1|reflexivity].
Qed.

(** X4: the teardown removes exactly one allocation anchor from the block
    that holds it, keeping that block's other instructions in order, leaves
    every other block alone, and clears the anchor pointer. *)
Theorem GC_teardown_removes_anchor (C : CodeGenEnv) (s s' : CodeGenFunction)
  (u : unit) (b : nat)
  (Hpt : AllocaInsertPt s = Some b)
  (Hin : In AllocaInsertPtInst (bb_insts (block_at s b)))
  (H : GC_teardown C s = Ok (u, s')) :
  AllocaInsertPt s' = None /\
  anchor_count (bb_insts (block_at s' b)) = anchor_count (bb_insts (block_at s b)) - 1 /\
  filter (fun i => negb (isAllocaInsertPt i)) (bb_insts (block_at s' b)) =
  filter (fun i => negb (isAllocaInsertPt i)) (bb_insts (block_at s b)) /\
  (forall c, c <> b -> block_at s' c = block_at s c).
Proof.
  unfold GC_teardown, EraseAllocaInsertPt, bind, get, assert in H.
  rewrite Hpt in H. cbv [update_block modify] in H.
  destruct (verifyFunction C _); [discriminate|].
  cbn in H. injection H as _ <-.
  assert (Hlt : b < length (Arena s)).
  { destruct (Nat.lt_ge_cases b (length (Arena s))) as [Hl|Hge]; [exact Hl|].
    unfold block_at in Hin. rewrite nth_overflow_block in Hin by exact Hge.
    destruct Hin. }
  assert (Hc : anchor_count (bb_insts (block_at s b)) <> 0).
  { unfold anchor_count. intros H0. apply length_zero_iff_nil in H0.
    assert (Hf : In AllocaInsertPtInst (filter isAllocaInsertPt (bb_insts (block_at s b))))
      by (apply filter_In; split; [exact Hin|reflexivity]).
    rewrite H0 in Hf. destruct Hf. }
  unfold block_at. cbn. rewrite nth_update_nth_same by exact Hlt. cbn.
  destruct (remove_first_anchor_count _ Hc) as [E1 E2].
  split; [reflexivity|split; [exact E1|split; [exact E2|]]].
  intros c Hne. apply nth_update_nth_other. exact Hne.
Qed.

Lemma update_nth_app_last : forall l x f,
  update_nth (l ++ [x]) (length l) f = l ++ [f x].
Proof. induction l as [|y l IH]; intros x f; cbn; [reflexivity|rewrite IH; reflexivity]. Qed.


Lemma GC_entry_state : forall s,
  exists s', GC_entry s = Ok (tt, s') /\
    Arena s' = Arena s ++ [mkBB "entry" [AllocaInsertPtInst]] /\
    InsertBlock s' = length (Arena s) /\
    AllocaInsertPt s' = Some (length (Arena s)) /\
    BreakContinueStack s' = BreakContinueStack s /\
    fn_retty (CurFn s') = fn_retty (CurFn s) /\
    fn_nargs (CurFn s') = fn_nargs (CurFn s) /\
    fn_blocks (CurFn s') = fn_blocks (CurFn s) ++ [length (Arena s)].
Proof.
  intros s. eexists. split; [reflexivity|]. cbn.
  rewrite update_nth_app_last. repeat split.
Qed.







(** X7: when the body leaves a break/continue frame on the stack,
    [GenerateCode] aborts with the mismatched push/pop assertion. *)
Theorem GenerateCode_stack_mismatch_fatal (C : CodeGenEnv) (FD : FunctionDecl)
  (s0 s : CodeGenFunction)
  (H : GC_body C FD s0 = Ok (tt, s))
  (Hk : BreakContinueStack s <> []) :
  GenerateCode C FD s0 = Fatal "mismatched push/pop in break/continue stack!".
Proof.
  unfold GenerateCode. rewrite (bind_Ok _ _ _ _ _ H).
  unfold GC_finish, bind, get, assert.
  destruct (BreakContinueStack s); [contradiction|reflexivity].
Qed.


Lemma getBasicBlockForLabel_cases : forall L s B s',
  getBasicBlockForLabel L s = Ok (B, s') ->
  (lookup_label (ls_id L) (LabelMap s) = Some B /\ s' = s) \/
  (lookup_label (ls_id L) (LabelMap s) = None /\ B = length (Arena s) /\
   s' = set_labelmap (set_arena s (Arena s ++ [mkBB (ls_name L) []]))
                     ((ls_id L, length (Arena s)) :: LabelMap s)).
Proof.
  intros L s B s' H. unfold getBasicBlockForLabel, bind, get in H.
  destruct (lookup_label (ls_id L) (LabelMap s)) as [b|] eqn:E.
  - injection H as <- <-. left. split; reflexivity.
  - cbv [NewBasicBlock bind get modify ret] in H. injection H as <- <-.
    right. split; [reflexivity|split; reflexivity].
Qed.

Lemma getBasicBlockForLabel_labels : forall L s B s',
  labels_wf s -> labels_inj s ->
  getBasicBlockForLabel L s = Ok (B, s') ->
  labels_wf s' /\ labels_inj s' /\
  lookup_label (ls_id L) (LabelMap s') = Some B /\
  (forall id b, lookup_label id (LabelMap s) = Some b ->
                lookup_label id (LabelMap s') = Some b).
Proof.
  intros L s B s' Hwf Hinj H.
  destruct (getBasicBlockForLabel_cases L s B s' H) as [[Hl ->]|(Hl & -> & ->)].
  - split; [exact Hwf|split; [exact Hinj|split; [exact Hl|auto]]].
  - unfold labels_wf, labels_inj in *. cbn.
    split; [|split; [|split]].
    + intros id b Hb. rewrite length_app. cbn. cbn in Hb.
      destruct (id =? ls_id L).
      * injection Hb as <-. lia.
      * apply Hwf in Hb. lia.
    + intros id1 id2 b H1 H2. cbn in H1, H2.
      destruct (Nat.eqb_spec id1 (ls_id L)) as [E1|E1];
      destruct (Nat.eqb_spec id2 (ls_id L)) as [E2|E2].
      * congruence.
      * injection H1 as <-. apply Hwf in H2. lia.
      * injection H2 as <-. apply Hwf in H1. lia.
      * exact (Hinj id1 id2 b H1 H2).
    + rewrite Nat.eqb_refl. reflexivity.
    + intros id b Hb. cbn. destruct (Nat.eqb_spec id (ls_id L)) as [->|_].
      * congruence.
      * exact Hb.
Qed.

(** X9: as long as every label entry names an allocated block and no two
    labels share a block (true of an empty label map), a lookup keeps both
    properties, records the label's block, and never changes the block of a
    label resolved earlier. *)
Theorem getBasicBlockForLabel_label_invariants (L : LabelStmt) (s s' : CodeGenFunction)
  (B : nat) (Hwf : labels_wf s) (Hinj : labels_inj s)
  (H : getBasicBlockForLabel L s = Ok (B, s')) :
  labels_wf s' /\ labels_inj s' /\
  lookup_label (ls_id L) (LabelMap s') = Some B /\
  (forall id b, lookup_label id (LabelMap s) = Some b ->
                lookup_label id (LabelMap s') = Some b).
Proof. exact (getBasicBlockForLabel_labels L s B s' Hwf Hinj H). Qed.

(** X10: under the same invariants, two successive lookups return the same
    block exactly when they are for the same label: distinct labels never
    share a block. *)
Theorem getBasicBlockForLabel_distinct (L1 L2 : LabelStmt)
  (s s1 s2 : CodeGenFunction) (B1 B2 : nat)
  (Hwf : labels_wf s) (Hinj : labels_inj s)
  (H1 : getBasicBlockForLabel L1 s = Ok (B1, s1))
  (H2 : getBasicBlockForLabel L2 s1 = Ok (B2, s2)) :
  B1 = B2 <-> ls_id L1 = ls_id L2.
Proof.
  destruct (getBasicBlockForLabel_labels L1 s B1 s1 Hwf Hinj H1)
    as (Hwf1 & Hinj1 & Hl1 & _).
  destruct (getBasicBlockForLabel_labels L2 s1 B2 s2 Hwf1 Hinj1 H2)
    as (_ & Hinj2 & Hl2 & Hmono).
  specialize (Hmono _ _ Hl1).
  split.
  - intros <-. exact (Hinj2 _ _ _ Hmono Hl2).
  - intros E. rewrite E in Hmono. congruence.
Qed.

Lemma arena_anchors_app : forall l B,
  arena_anchors (l ++ [B]) = arena_anchors l + anchor_count (bb_insts B).
Proof.
  unfold arena_anchors. induction l as [|B' l IH]; intros B; cbn; [lia|rewrite IH; lia].
Qed.

Lemma arena_anchors_update_same : forall l b f,
  (forall B, anchor_count (bb_insts (f B)) = anchor_count (bb_insts B)) ->
  arena_anchors (update_nth l b f) = arena_anchors l.
Proof.
  unfold arena_anchors. induction l as [|B l IH]; intros b f Hf; [destruct b; reflexivity|].
  destruct b as [|b]; cbn; [rewrite Hf; reflexivity|rewrite IH by exact Hf; reflexivity].
Qed.

Lemma arena_anchors_update : forall l b f,
  b < length l ->
  arena_anchors (update_nth l b f) + anchor_count (bb_insts (nth b l empty_block)) =
  arena_anchors l + anchor_count (bb_insts (f (nth b l empty_block))).
Proof.
  unfold arena_anchors. induction l as [|B l IH]; intros b f Hb; cbn in Hb; [lia|].
  destruct b as [|b]; cbn; [lia|].
  specialize (IH b f ltac:(lia)). lia.
Qed.

Lemma GC_fallthrough_anchors n : respects (anchors_are n) GC_fallthrough.
Proof.
  unfold_steps. respects_struct; unfold anchors_are in *; cbn;
    rewrite arena_anchors_update_same; try exact HI;
    intros B; unfold anchor_count; cbn; rewrite filter_app; cbn;
    rewrite app_nil_r; reflexivity.
Qed.

Lemma GC_params_anchors (C : CodeGenEnv) (FD : FunctionDecl) n :
  (forall P i, respects (anchors_are n) (EmitParmDecl C P i)) ->
  respects (anchors_are n) (GC_params C FD).
Proof.
  intros Hp. unfold GC_params, modify_fn. respects_struct;
    apply EmitParams_respects; exact Hp.
Qed.

Lemma GC_finish_anchors (C : CodeGenEnv) : forall e s u s',
  anchored e s -> GC_finish C s = Ok (u, s') ->
  arena_anchors (Arena s') + 1 = arena_anchors (Arena s).
Proof.
  intros e s u s' (Ha & _ & Hi) H.
  unfold GC_finish, GC_teardown, EraseAllocaInsertPt, bind, get, assert in H.
  destruct (isNil (BreakContinueStack s)); [|discriminate].
  rewrite Ha in H. cbv [update_block modify] in H.
  destruct (verifyFunction C _); [discriminate|].
  cbn in H. injection H as _ <-. cbn.
  assert (Hlt : e < length (Arena s)).
  { destruct (Nat.lt_ge_cases e (length (Arena s))) as [Hl|Hge]; [exact Hl|].
    unfold block_at in Hi. rewrite nth_overflow_block in Hi by exact Hge.
    destruct Hi. }
  assert (Hc : anchor_count (bb_insts (block_at s e)) <> 0).
  { unfold anchor_count. intros H0. apply length_zero_iff_nil in H0.
    assert (Hf : In AllocaInsertPtInst (filter isAllocaInsertPt (bb_insts (block_at s e))))
      by (apply filter_In; split; [exact Hi|reflexivity]).
    rewrite H0 in Hf. destruct Hf. }
  destruct (remove_first_anchor_count _ Hc) as [E1 _].
  pose proof (arena_anchors_update (Arena s) e
                (fun B => mkBB (bb_name B) (remove_first_anchor (bb_insts B))) Hlt) as Hu.
  cbn [bb_insts] in Hu. unfold block_at in Hc, E1. unfold arena_anchors in *. lia.
Qed.

(** X11: when the parameter and statement emitters keep the allocation
    anchor where it is and add or remove no anchor instruction, a completed
    [GenerateCode] leaves exactly as many anchor instructions in the blocks
    as there were before it started: the one it inserts into the entry block
    is gone again. *)
Theorem GenerateCode_anchor_count (C : CodeGenEnv) (FD : FunctionDecl)
  (s0 s : CodeGenFunction) (u : unit)
  (Hparm : forall P i e, respects (anchored e) (EmitParmDecl C P i))
  (Hbody : forall e, respects (anchored e) (EmitStmt C (fd_body FD)))
  (Hparm_n : forall P i n, respects (anchors_are n) (EmitParmDecl C P i))
  (Hbody_n : forall n, respects (anchors_are n) (EmitStmt C (fd_body FD)))
  (H : GenerateCode C FD s0 = Ok (u, s)) :
  arena_anchors (Arena s) = arena_anchors (Arena s0).
Proof.
  unfold GenerateCode in H. apply bind_Ok_inv in H.
  destruct H as (x & s3 & Hb3 & Hfin).
  unfold GC_body in Hb3. apply bind_Ok_inv in Hb3.
  destruct Hb3 as (x1 & s1 & Hpro & Hrest).
  apply bind_Ok_inv in Hrest. destruct Hrest as (x2 & s2 & Hst & Hft).
  unfold GC_prologue in Hpro.
  apply bind_Ok_inv in Hpro. destruct Hpro as (y1 & sa & Hsetup & Hpro).
  apply bind_Ok_inv in Hpro. destruct Hpro as (y2 & sb & Hattr & Hpro).
  apply bind_Ok_inv in Hpro. destruct Hpro as (y3 & sc & Hentry & Hparams).
  destruct (GC_setup_arena C FD s0 y1 sa Hsetup) as [Ea _].
  destruct (GC_attributes_keeps FD sa) as (sb' & Hattr' & Eb & _).
  rewrite Hattr' in Hattr. injection Hattr as _ <-.
  destruct (GC_entry_effect sb') as (sc' & Hentry' & Hanc & _).
  destruct (GC_entry_state sb') as (sc2 & Hentry2 & Ec & _).
  rewrite Hentry' in Hentry, Hentry2.
  injection Hentry as _ <-. injection Hentry2 as Heq. subst sc2.
  rewrite Eb, Ea in Hanc.
  set (e0 := length (Arena s0)) in *.
  set (N := arena_anchors (Arena s0)).
  assert (C0 : anchors_are (N + 1) sc').
  { unfold anchors_are. rewrite Ec, Eb, Ea, arena_anchors_app. reflexivity. }
  assert (C1 : anchors_are (N + 1) s1)
    by (apply (GC_params_anchors C FD (N + 1) (fun P i => Hparm_n P i (N + 1)) _ _ _ Hparams C0)).
  assert (C2 : anchors_are (N + 1) s2) by (apply (Hbody_n (N + 1) _ _ _ Hst C1)).
  assert (C3 : anchors_are (N + 1) s3) by (apply (GC_fallthrough_anchors (N + 1) _ _ _ Hft C2)).
  assert (A1 : anchored e0 s1)
    by (apply (GC_params_anchored C FD e0 (fun P i => Hparm P i e0) _ _ _ Hparams Hanc)).
  assert (A2 : anchored e0 s2) by (apply (Hbody e0 _ _ _ Hst A1)).
  assert (A3 : anchored e0 s3) by (apply (GC_fallthrough_anchored e0 _ _ _ Hft A2)).
  pose proof (GC_finish_anchors C e0 s3 u s A3 Hfin) as Hf.
  unfold anchors_are in C3. lia.
Qed.

(** ** Sample label maps *)

Lemma label_state_wf : labels_wf label_state.
Proof.
  intros id b H. cbn in H. cbn.
  destruct (id =? 7); [injection H as <-; lia|discriminate].
Qed.

Lemma label_state_inj : labels_inj label_state.
Proof.
  intros id1 id2 b H1 H2. cbn in H1, H2.
  destruct (Nat.eqb_spec id1 7), (Nat.eqb_spec id2 7); congruence.
Qed.

(** * Witnesses: the theorems applied at concrete inputs *)

Lemma fallthrough_terminator_witness :
  InsertBlock (entry_state (IntegerTy 32)) < length (Arena (entry_state (IntegerTy 32))) /\
  exists s', GC_fallthrough (entry_state (IntegerTy 32)) = Ok (tt, s') /\
    bb_insts (block_at s' 0) =
      [AllocaInsertPtInst; ReturnInst (Some (UndefValue (IntegerTy 32)))].
Proof.
  assert (Hin : InsertBlock (entry_state (IntegerTy 32)) <
                length (Arena (entry_state (IntegerTy 32)))) by (cbn; lia).
  split; [exact Hin|].
  destruct (fallthrough_terminator (entry_state (IntegerTy 32)) Hin)
    as (s' & H & _ & Hnd).
  exists s'. split; [exact H|].
  destruct (Hnd (eq_refl false)) as (_ & _ & _ & Hr).
  etransitivity; [apply Hr; discriminate|reflexivity].
Defined.

Lemma linkage_precedence_witness :
  fn_linkage (CurFn (entry_state VoidTy)) = ExternalLinkage /\
  exists s', GC_attributes
               (with_markers (sample_decl TInteger [] NullStmt)
                             true false false false SCStatic false false)
               (entry_state VoidTy) = Ok (tt, s') /\
             fn_linkage (CurFn s') = DLLImportLinkage.
Proof.
  assert (Hext : fn_linkage (CurFn (entry_state VoidTy)) = ExternalLinkage) by reflexivity.
  split; [exact Hext|].
  destruct (linkage_precedence
              (with_markers (sample_decl TInteger [] NullStmt)
                            true false false false SCStatic false false)
              (entry_state VoidTy) Hext) as (s' & H & _ & Himp).
  exists s'. split; [exact H|]. apply Himp; reflexivity.
Defined.

Lemma param_attrs_nounwind_noreturn_witness :
  let FD := with_markers (sample_decl TVoid [] NullStmt)
                         false false false false SCNone true true in
  fd_nothrow FD = true /\ fd_noreturn FD = true /\
  map snd (ParamAttrsVecFor FD) = [NoUnwind; NoReturn].
Proof.
  intros FD. split; [reflexivity|split; [reflexivity|]].
  destruct (param_attrs_nounwind_noreturn FD eq_refl eq_refl) as (_ & H & _).
  exact H.
Defined.

Lemma getBasicBlockForLabel_idempotent_witness :
  (forall b, In b (fn_blocks (CurFn label_state)) -> b < length (Arena label_state)) /\
  In (InsertBlock label_state) (fn_blocks (CurFn label_state)) /\
  exists BB s1, getBasicBlockForLabel (mkLabel 9 "M") label_state = Ok (BB, s1) /\
    getBasicBlockForLabel (mkLabel 9 "M") s1 = Ok (BB, s1) /\
    ~ In BB (fn_blocks (CurFn s1)).
Proof.
  assert (Hwf : forall b, In b (fn_blocks (CurFn label_state)) ->
                          b < length (Arena label_state)).
  { intros b Hb. cbn in Hb. cbn. destruct Hb as [<-|[<-|[]]]; lia. }
  assert (Hcur : In (InsertBlock label_state) (fn_blocks (CurFn label_state))).
  { cbn. right. left. reflexivity. }
  split; [exact Hwf|split; [exact Hcur|]].
  destruct (getBasicBlockForLabel_idempotent (mkLabel 9 "M") label_state Hwf Hcur)
    as (BB & s1 & H1 & H2 & _ & _ & _ & Hnew & _).
  exists BB, s1. split; [exact H1|split; [exact H2|]].
  apply Hnew. reflexivity.
Defined.

Lemma StartBlock_twice_reuses_witness :
  InsertBlock (entry_state VoidTy) < length (Arena (entry_state VoidTy)) /\
  branch_targets_ok (entry_state VoidTy) /\
  exists s1 s2, StartBlock "for.cond" (entry_state VoidTy) = Ok (tt, s1) /\
    StartBlock "for.body" s1 = Ok (tt, s2) /\ InsertBlock s2 = InsertBlock s1.
Proof.
  assert (Hin : InsertBlock (entry_state VoidTy) < length (Arena (entry_state VoidTy)))
    by (cbn; lia).
  assert (Hwf : branch_targets_ok (entry_state VoidTy)).
  { intros j i t Hi Ht. destruct j as [|j]; cbn in Hi.
    - destruct Hi as [<-|[]]. destruct Ht.
    - destruct j; destruct Hi. }
  split; [exact Hin|split; [exact Hwf|]].
  destruct (StartBlock_twice_reuses "for.cond" "for.body" (entry_state VoidTy) Hin Hwf)
    as (s1 & s2 & H1 & H2 & _ & _ & _ & H3 & _).
  exists s1, s2. split; [exact H1|split; [exact H2|exact H3]].
Defined.

Lemma GenerateCode_existing_body_fatal_witness :
  isDeclaration (setBlocks (sample_fn VoidTy 0) [0]) = false /\
  GenerateCode (SampleEnv (setBlocks (sample_fn VoidTy 0) [0]) (fun _ => ret tt))
               (sample_decl TVoid [] NullStmt) (NewCodeGenFunction [mkBB "entry" []]) =
  Fatal "Function already has body?".
Proof.
  split; [reflexivity|].
  apply GenerateCode_existing_body_fatal. reflexivity.
Defined.

Lemma break_continue_stack_empty_at_end_witness :
  match GC_body (SampleEnv (sample_fn VoidTy 0) EmitStmtModel)
                (sample_decl TVoid [] (nested_loops 3)) (NewCodeGenFunction []) with
  | Ok (_, s) =>
      BreakContinueStack s = [] /\
      GenerateCode (SampleEnv (sample_fn VoidTy 0) EmitStmtModel)
                   (sample_decl TVoid [] (nested_loops 3)) (NewCodeGenFunction []) =
      GC_teardown (SampleEnv (sample_fn VoidTy 0) EmitStmtModel) s
  | Fatal e =>
      GenerateCode (SampleEnv (sample_fn VoidTy 0) EmitStmtModel)
                   (sample_decl TVoid [] (nested_loops 3)) (NewCodeGenFunction []) =
      Fatal e
  end.
Proof.
  apply break_continue_stack_empty_at_end.
  - reflexivity.
  - intros P i q u q' H. cbn in H. injection H as _ <-. reflexivity.
  - intros s1 u s2 H1 H2. vm_compute in H1. injection H1 as <-.
    vm_compute in H2. injection H2 as _ <-. vm_compute. reflexivity.
Defined.

Lemma entry_block_never_erased_witness :
  match GenerateCode (SampleEnv (sample_fn (IntegerTy 32) 0) (fun _ => ret tt))
                     (sample_decl TInteger [] NullStmt) (NewCodeGenFunction []) with
  | Ok (_, s) => In 0 (fn_blocks (CurFn s))
  | Fatal _ => True
  end.
Proof.
  destruct (entry_block_never_erased
              (SampleEnv (sample_fn (IntegerTy 32) 0) (fun _ => ret tt))
              (sample_decl TInteger [] NullStmt) (NewCodeGenFunction []))
    as (_ & _ & _ & H).
  - intros P i e. exact (respects_ret (anchored e) tt).
  - intros e. exact (respects_ret (anchored e) tt).
  - exact H.
Defined.

Lemma void_result_not_aggregate_witness :
  fd_result (sample_decl TVoid ["x"%string; "y"%string] NullStmt) = TVoid /\
  GC_params (SampleEnv (sample_fn VoidTy 2) (fun _ => ret tt))
            (sample_decl TVoid ["x"%string; "y"%string] NullStmt) =
  EmitParams (SampleEnv (sample_fn VoidTy 2) (fun _ => ret tt)) ["x"%string; "y"%string] 0.
Proof.
  split; [reflexivity|].
  destruct (void_result_not_aggregate (SampleEnv (sample_fn VoidTy 2) (fun _ => ret tt))
              (sample_decl TVoid ["x"%string; "y"%string] NullStmt) eq_refl)
    as (_ & _ & _ & _ & _ & _ & H).
  exact H.
Defined.

Lemma GenerateCode_Ok_facts_witness :
  match GenerateCode (SampleEnv (sample_fn VoidTy 0) (fun _ => ret tt))
                     (sample_decl TVoid [] NullStmt) (NewCodeGenFunction []) with
  | Ok (_, s) => AllocaInsertPt s = None /\ BreakContinueStack s = []
  | Fatal _ => False
  end.
Proof.
  destruct (GenerateCode (SampleEnv (sample_fn VoidTy 0) (fun _ => ret tt))
              (sample_decl TVoid [] NullStmt) (NewCodeGenFunction [])) as [[u s]|e] eqn:Hg.
  - destruct (GenerateCode_Ok_facts _ _ _ _ _ Hg) as (_ & Hk & Hp & _).
    split; [exact Hp|exact Hk].
  - vm_compute in Hg. discriminate.
Defined.

Lemma GC_teardown_removes_anchor_witness :
  match GC_teardown (SampleEnv (sample_fn (IntegerTy 32) 0) (fun _ => ret tt))
                    (entry_state (IntegerTy 32)) with
  | Ok (_, s) => AllocaInsertPt s = None /\
                 anchor_count (bb_insts (block_at s 0)) = 0
  | Fatal _ => False
  end.
Proof.
  destruct (GC_teardown (SampleEnv (sample_fn (IntegerTy 32) 0) (fun _ => ret tt))
              (entry_state (IntegerTy 32))) as [[u s]|e] eqn:Hg.
  - destruct (GC_teardown_removes_anchor _ (entry_state (IntegerTy 32)) _ _ 0 eq_refl
                ltac:(cbn; left; reflexivity) Hg) as (Hp & Hc & _).
    split; [exact Hp|]. rewrite Hc. reflexivity.
  - vm_compute in Hg. discriminate.
Defined.



Lemma GenerateCode_stack_mismatch_fatal_witness :
  match GC_body (SampleEnv (sample_fn VoidTy 0)
                           (fun _ => modify (fun s => set_bcstack s [(1, 2)])))
                (sample_decl TVoid [] NullStmt) (NewCodeGenFunction []) with
  | Ok (_, _) =>
      GenerateCode (SampleEnv (sample_fn VoidTy 0)
                              (fun _ => modify (fun s => set_bcstack s [(1, 2)])))
                   (sample_decl TVoid [] NullStmt) (NewCodeGenFunction []) =
      Fatal "mismatched push/pop in break/continue stack!"
  | Fatal _ => False
  end.
Proof.
  destruct (GC_body (SampleEnv (sample_fn VoidTy 0)
                               (fun _ => modify (fun s => set_bcstack s [(1, 2)])))
              (sample_decl TVoid [] NullStmt) (NewCodeGenFunction [])) as [[u s]|e] eqn:Hb.
  - destruct u. pose proof Hb as Hb'. vm_compute in Hb'. injection Hb' as Hs.
    apply (GenerateCode_stack_mismatch_fatal _ _ _ s Hb).
    rewrite <- Hs. cbn. discriminate.
  - vm_compute in Hb. discriminate.
Defined.


Lemma getBasicBlockForLabel_label_invariants_witness :
  match getBasicBlockForLabel (mkLabel 3 "N") label_state with
  | Ok (B, s') => lookup_label 3 (LabelMap s') = Some B /\
                  lookup_label 7 (LabelMap s') = Some 1
  | Fatal _ => False
  end.
Proof.
  destruct (getBasicBlockForLabel (mkLabel 3 "N") label_state) as [[B s']|e] eqn:Hg.
  - destruct (getBasicBlockForLabel_label_invariants _ _ _ _ label_state_wf
                label_state_inj Hg) as (_ & _ & Hl & Hm).
    split; [exact Hl|apply Hm; reflexivity].
  - vm_compute in Hg. discriminate.
Defined.

Lemma getBasicBlockForLabel_distinct_witness :
  match getBasicBlockForLabel (mkLabel 3 "N") label_state with
  | Ok (B1, s1) =>
      match getBasicBlockForLabel (mkLabel 7 "L") s1 with
      | Ok (B2, _) => B1 <> B2
      | Fatal _ => False
      end
  | Fatal _ => False
  end.
Proof.
  destruct (getBasicBlockForLabel (mkLabel 3 "N") label_state) as [[B1 s1]|e] eqn:H1.
  - pose proof H1 as H1'. vm_compute in H1'. injection H1' as HB Hs. subst B1 s1.
    destruct (getBasicBlockForLabel (mkLabel 7 "L") _) as [[B2 s2]|e] eqn:H2.
    + intros E.
      apply (getBasicBlockForLabel_distinct _ _ _ _ _ _ _ label_state_wf
               label_state_inj H1 H2) in E.
      discriminate.
    + vm_compute in H2. discriminate.
  - vm_compute in H1. discriminate.
Defined.

Lemma GenerateCode_anchor_count_witness :
  match GenerateCode (SampleEnv (sample_fn VoidTy 0) (fun _ => ret tt))
                     (sample_decl TVoid [] NullStmt) (NewCodeGenFunction []) with
  | Ok (_, s) => arena_anchors (Arena s) = 0
  | Fatal _ => False
  end.
Proof.
  destruct (GenerateCode (SampleEnv (sample_fn VoidTy 0) (fun _ => ret tt))
              (sample_decl TVoid [] NullStmt) (NewCodeGenFunction [])) as [[u s]|e] eqn:Hg.
  - exact (GenerateCode_anchor_count (SampleEnv (sample_fn VoidTy 0) (fun _ => ret tt))
             (sample_decl TVoid [] NullStmt) _ _ _
             (fun P i e => respects_ret (anchored e) tt)
             (fun e => respects_ret (anchored e) tt)
             (fun P i n => respects_ret (anchors_are n) tt)
             (fun n => respects_ret (anchors_are n) tt) Hg).
  - vm_compute in Hg. discriminate.
Defined.
